(** * Recurrent-state wrappers of [model/model.py]

    A shallow embedding of the wrapper classes [WFlowNet], [FlowNet],
    [FlowNetNoRecur], [E2VIDRecurrent] and [EVFlowNet] and of the helper
    [copy_states], together with the Python objects they manipulate:
    tensors with their own storage, list objects holding the per-encoder
    states, and keyword dictionaries.  Mutable objects live in stores and
    are named by locations, so that aliasing between the live state of a
    model and what a caller holds is visible. *)

From Stdlib Require Import ZArith List Bool.
From Stdlib Require Import Floats.SpecFloat.
From stdpp Require Import base tactics option list gmap strings.

Local Open Scope Z_scope.

(** ** Exceptions and results *)

(** The exceptions the modelled code can raise.  [BadRef] marks a
    location outside its store; Python never produces one, and every
    theorem below rules it out by a well-formedness hypothesis. *)
Inductive exn : Set :=
| IndexError
| AttributeError
| KeyError
| BadRef.

Inductive result (A : Type) : Type :=
| Ok (a : A)
| Raise (e : exn).
Arguments Ok {A} a.
Arguments Raise {A} e.

#[global] Instance result_ret : MRet result := λ A a, Ok a.
#[global] Instance result_bind : MBind result := λ A B f r,
  match r with
  | Ok a => f a
  | Raise e => Raise e
  end.

Definition of_option {A} (e : exn) (o : option A) : result A :=
  match o with
  | Some a => Ok a
  | None => Raise e
  end.

(** ** Tensors *)

(** Elements are IEEE-754 binary32 numbers (torch's default dtype). *)
Definition prec : Z := 24.
Definition emax : Z := 128.
Abbreviation f32 := spec_float.

Definition f32_mul (x y : f32) : f32 := SFmul prec emax x y.
Definition f32_zero : f32 := S754_zero false.

Definition is_zero (x : f32) : bool :=
  match x with
  | S754_zero _ => true
  | _ => false
  end.

Definition is_finite (x : f32) : bool :=
  match x with
  | S754_zero _ | S754_finite _ _ _ => true
  | _ => false
  end.

(** A tensor is a shape and its elements in row-major order. *)
Record tensor : Set := Tensor {
  shape : list nat;
  data : list f32
}.

Definition numel (s : list nat) : nat := fold_right Nat.mul 1%nat s.

Definition tensor_wf (t : tensor) : Prop :=
  length (data t) = numel (shape t).

(** ** Stores *)

Abbreviation loc := nat.

(** One per-encoder state: absent, a single tensor (GRU) or a pair of
    tensors (LSTM).  Tuples are immutable, so a pair is a value holding
    two tensor references. *)
Inductive entry : Set :=
| Absent
| Gru (h : loc)
| Lstm (h c : loc).

(** The store of tensors and of list objects. *)
Record heap : Type := Heap {
  tensors : list tensor;
  lists : list (list entry)
}.

Definition alloc_tensor (h : heap) (t : tensor) : heap * loc :=
  (Heap (tensors h ++ [t]) (lists h), length (tensors h)).

Definition alloc_list (h : heap) (es : list entry) : heap * loc :=
  (Heap (tensors h) (lists h ++ [es]), length (lists h)).

Definition deref_tensor (h : heap) (a : loc) : result tensor :=
  of_option BadRef (tensors h !! a).

Definition deref_list (h : heap) (l : loc) : result (list entry) :=
  of_option BadRef (lists h !! l).

(** Python indexing [xs[i]]: a negative index counts from the end, an
    index out of range raises [IndexError]. *)
Definition py_index (n : nat) (i : Z) : option nat :=
  let j := if i <? 0 then i + Z.of_nat n else i in
  if (0 <=? j) && (j <? Z.of_nat n) then Some (Z.to_nat j) else None.

Definition list_getitem {A} (xs : list A) (i : Z) : result A :=
  of_option IndexError (py_index (length xs) i ≫= λ j, xs !! j).

(** [xs[i] = e] on the list object at [l]. *)
Definition list_setitem (h : heap) (l : loc) (i : Z) (e : entry) : result heap :=
  es ← deref_list h l;
  j ← of_option IndexError (py_index (length es) i);
  Ok (Heap (tensors h) (<[l := <[j := e]> es]> (lists h))).

(** An in-place operation on the tensor at [a], leaving [t] there. *)
Definition tensor_write (h : heap) (a : loc) (t : tensor) : result heap :=
  _ ← deref_tensor h a;
  Ok (Heap (<[a := t]> (tensors h)) (lists h)).

(** ** Reading a state sequence by value *)

Inductive ventry : Set :=
| VAbsent
| VGru (h : tensor)
| VLstm (h c : tensor).

Definition read_entry (h : heap) (e : entry) : option ventry :=
  match e with
  | Absent => Some VAbsent
  | Gru a => VGru <$> tensors h !! a
  | Lstm a b => a' ← tensors h !! a; b' ← tensors h !! b; Some (VLstm a' b')
  end.

Definition read_states (h : heap) (l : loc) : option (list ventry) :=
  es ← lists h !! l; mapM (read_entry h) es.

Definition entry_locs (e : entry) : list loc :=
  match e with
  | Absent => []
  | Gru a => [a]
  | Lstm a b => [a; b]
  end.

Definition states_locs (es : list entry) : list loc :=
  flat_map entry_locs es.

(** A state sequence is well formed in a heap when the list object and
    every tensor it mentions are allocated. *)
Definition entry_ok (h : heap) (e : entry) : bool :=
  forallb (λ a, Nat.ltb a (length (tensors h))) (entry_locs e).

Definition states_ok (h : heap) (l : loc) : bool :=
  match lists h !! l with
  | Some es => forallb (entry_ok h) es
  | None => false
  end.

Definition is_absent (e : entry) : bool :=
  match e with
  | Absent => true
  | _ => false
  end.

Definition same_kind (e e' : entry) : bool :=
  match e, e' with
  | Absent, Absent | Gru _, Gru _ | Lstm _ _, Lstm _ _ => true
  | _, _ => false
  end.

(** ** [copy.deepcopy] on a state sequence *)

(** The memo of one [deepcopy] call: an object met twice is copied once.
    A tensor is its storage, shape and contents; autograd history, which
    torch's [__deepcopy__] refuses to copy, is not represented. *)
Definition deepcopy_tensor (h : heap) (m : gmap loc loc) (a : loc)
  : result (heap * gmap loc loc * loc) :=
  match m !! a with
  | Some a' => Ok (h, m, a')
  | None =>
      t ← deref_tensor h a;
      let '(h', a') := alloc_tensor h t in
      Ok (h', <[a := a']> m, a')
  end.

Definition deepcopy_entry (h : heap) (m : gmap loc loc) (e : entry)
  : result (heap * gmap loc loc * entry) :=
  match e with
  | Absent => Ok (h, m, Absent)
  | Gru a =>
      '(h1, m1, a') ← deepcopy_tensor h m a;
      Ok (h1, m1, Gru a')
  | Lstm a b =>
      '(h1, m1, a') ← deepcopy_tensor h m a;
      '(h2, m2, b') ← deepcopy_tensor h1 m1 b;
      Ok (h2, m2, Lstm a' b')
  end.

Fixpoint deepcopy_entries (h : heap) (m : gmap loc loc) (es : list entry)
  : result (heap * gmap loc loc * list entry) :=
  match es with
  | [] => Ok (h, m, [])
  | e :: es' =>
      '(h1, m1, e') ← deepcopy_entry h m e;
      '(h2, m2, es'') ← deepcopy_entries h1 m1 es';
      Ok (h2, m2, e' :: es'')
  end.

Definition deepcopy (h : heap) (l : loc) : result (heap * loc) :=
  es ← deref_list h l;
  '(h1, _, es') ← deepcopy_entries h ∅ es;
  Ok (alloc_list h1 es').

(** ** [copy_states] and the wrappers' state accessors *)

(** The wrapped networks ([WNet], [UNetFlow], [UNetRecurrent]) as far as
    the wrappers touch them: the [num_encoders] and [states] attributes. *)
Record rnet : Set := RNet {
  r_num_encoders : Z;
  r_states : loc
}.

Inductive pyval : Set :=
| PNone
| PBool (b : bool)
| PInt (z : Z)
| PStr (s : string).

(** The non-recurrent networks ([UNetFlowNoRecur], [UNet]), built from a
    keyword dictionary: the wrappers only call their [forward]. *)
Record fnet : Type := FNet {
  f_kwargs : gmap string pyval
}.

(** Modelled from the spec: the base class [BaseModel] of [base], which
    is missing here, contributes no state sequence; the spec gives one to
    the recurrent variants only.  A model instance then holds what its
    [__init__] sets.  The last field of the two non-recurrent classes is
    the instance attribute [states], which these classes do not define
    and which exists only once it was assigned. *)
Inductive model : Type :=
| WFlowNet (num_bins num_encoders : pyval) (wnet : rnet)
| FlowNet (num_bins num_encoders : pyval) (unetflow : rnet)
| FlowNetNoRecur (num_bins num_encoders : pyval) (unetflow : fnet)
    (attr_states : option loc)
| E2VIDRecurrent (num_bins num_encoders : pyval) (unetrecurrent : rnet)
| EVFlowNet (num_bins num_encoders : pyval) (unet : fnet)
    (attr_states : option loc).

Definition recurrent (m : model) : bool :=
  match m with
  | WFlowNet _ _ _ | FlowNet _ _ _ | E2VIDRecurrent _ _ _ => true
  | _ => false
  end.

(** The list object a recurrent wrapper currently uses as its state. *)
Definition live (m : model) : option loc :=
  match m with
  | WFlowNet _ _ n | FlowNet _ _ n | E2VIDRecurrent _ _ n => Some (r_states n)
  | _ => None
  end.

(** The encoder count the wrapper reads on [reset_states]. *)
Definition encoders (m : model) : option Z :=
  match m with
  | WFlowNet _ _ n | FlowNet _ _ n | E2VIDRecurrent _ _ n =>
      Some (r_num_encoders n)
  | _ => None
  end.

(** [[None] * n]: a fresh list object; a count below one gives []. *)
Definition none_list (h : heap) (n : Z) : heap * loc :=
  alloc_list h (replicate (Z.to_nat n) Absent).

Section Wrappers.

(** [recursive_clone] is imported from [utils.myutil]; [copy_states] is
    stated for any function in its place. *)
Variable recursive_clone : heap → loc → result (heap * loc).

Definition copy_states (h : heap) (states : loc) : result (heap * loc) :=
  es ← deref_list h states;
  first ← list_getitem es 0;
  if is_absent first then deepcopy h states else recursive_clone h states.

Definition reset_states (m : model) (h : heap) : result (model * heap) :=
  match m with
  | WFlowNet nb ne wnet =>
      let '(h', l) := none_list h (r_num_encoders wnet) in
      Ok (WFlowNet nb ne (RNet (r_num_encoders wnet) l), h')
  | FlowNet nb ne unetflow =>
      let '(h', l) := none_list h (r_num_encoders unetflow) in
      Ok (FlowNet nb ne (RNet (r_num_encoders unetflow) l), h')
  | FlowNetNoRecur _ _ _ _ => Ok (m, h)
  | E2VIDRecurrent nb ne unetrecurrent =>
      let '(h', l) := none_list h (r_num_encoders unetrecurrent) in
      Ok (E2VIDRecurrent nb ne (RNet (r_num_encoders unetrecurrent) l), h')
  | EVFlowNet _ _ _ _ => Ok (m, h)
  end.

(** Reading [m.states]. *)
Definition get_states (m : model) (h : heap) : result (heap * loc) :=
  match m with
  | WFlowNet _ _ wnet => copy_states h (r_states wnet)
  | FlowNet _ _ unetflow => copy_states h (r_states unetflow)
  | E2VIDRecurrent _ _ unetrecurrent => copy_states h (r_states unetrecurrent)
  | FlowNetNoRecur _ _ _ a | EVFlowNet _ _ _ a =>
      l ← of_option AttributeError a; Ok (h, l)
  end.

(** Assigning [m.states = states]. *)
Definition set_states (m : model) (states : loc) : model :=
  match m with
  | WFlowNet nb ne wnet => WFlowNet nb ne (RNet (r_num_encoders wnet) states)
  | FlowNet nb ne unetflow =>
      FlowNet nb ne (RNet (r_num_encoders unetflow) states)
  | E2VIDRecurrent nb ne unetrecurrent =>
      E2VIDRecurrent nb ne (RNet (r_num_encoders unetrecurrent) states)
  | FlowNetNoRecur nb ne n _ => FlowNetNoRecur nb ne n (Some states)
  | EVFlowNet nb ne n _ => EVFlowNet nb ne n (Some states)
  end.

End Wrappers.

(** ** [recursive_clone] *)

(** [tensor.clone()]: a new tensor with its own storage and equal
    contents. *)
Definition clone (h : heap) (a : loc) : result (heap * loc) :=
  t ← deref_tensor h a;
  Ok (alloc_tensor h t).

Definition clone_entry (h : heap) (e : entry) : result (heap * entry) :=
  match e with
  | Absent => Ok (h, Absent)
  | Gru a =>
      '(h1, a') ← clone h a;
      Ok (h1, Gru a')
  | Lstm a b =>
      '(h1, a') ← clone h a;
      '(h2, b') ← clone h1 b;
      Ok (h2, Lstm a' b')
  end.

Fixpoint clone_entries (h : heap) (es : list entry)
  : result (heap * list entry) :=
  match es with
  | [] => Ok (h, [])
  | e :: es' =>
      '(h1, e') ← clone_entry h e;
      '(h2, es'') ← clone_entries h1 es';
      Ok (h2, e' :: es'')
  end.

(** Modelled from the spec: [recursive_clone] of [utils/myutil.py], which
    is missing here.  The spec describes it as a recursive clone
    that preserves the pair / single-tensor structure of each entry
    without sharing underlying storage: the result is a new list object,
    every tensor in it is a clone, a pair stays a pair and a single
    tensor stays a single tensor.  An absent entry holds no tensor and
    stays absent. *)
Definition recursive_clone (h : heap) (l : loc) : result (heap * loc) :=
  es ← deref_list h l;
  '(h1, es') ← clone_entries h es;
  Ok (alloc_list h1 es').

(** The [states] accessors with that [recursive_clone]. *)
Definition states (m : model) (h : heap) : result (heap * loc) :=
  get_states recursive_clone m h.

(** ** Tensor operations of [EVFlowNet.forward] *)

(** Keep the first [keep] elements of each of [n] consecutive blocks of
    [blk] elements. *)
Fixpoint slice_blocks {A} (n blk keep : nat) (d : list A) : list A :=
  match n with
  | O => []
  | S n' => take keep d ++ slice_blocks n' blk keep (drop blk d)
  end.

(** [t[..., 0:1, :, :]]: the slice [0:1] of the third dimension from the
    end; a tensor with fewer than three dimensions has too many indices. *)
Definition first_channel (t : tensor) : result tensor :=
  match rev (shape t) with
  | W :: H :: C :: lead =>
      let keep := Nat.min 1 C in
      Ok (Tensor (rev lead ++ [keep; H; W])
            (slice_blocks (numel (rev lead)) (C * H * W) (keep * H * W)
               (data t)))
  | _ => Raise IndexError
  end.

(** [0 * t]: every element multiplied by the scalar zero. *)
Definition zero_times (t : tensor) : tensor :=
  Tensor (shape t) (map (f32_mul f32_zero) (data t)).

(** ** [forward] *)

Section Forward.

(** The [forward] methods of the wrapped networks are defined in
    [model/unet.py], outside the file modelled here.  The recurrent ones
    advance the state sequence they hold. *)
Variable WNet_forward UNetFlow_forward UNetRecurrent_forward
  : rnet → heap → tensor → result (gmap string tensor * rnet * heap).
Variable UNetFlowNoRecur_forward : fnet → tensor → result (gmap string tensor).
Variable UNet_forward : fnet → tensor → result tensor.

Definition EVFlowNet_forward (unet : fnet) (event_tensor : tensor)
  : result (gmap string tensor) :=
  flow ← UNet_forward unet event_tensor;
  slice ← first_channel flow;
  Ok (<["flow" := flow]> (<["image" := zero_times slice]> ∅)).

Definition forward (m : model) (h : heap) (event_tensor : tensor)
  : result (gmap string tensor * model * heap) :=
  match m with
  | WFlowNet nb ne wnet =>
      '(output_dict, wnet', h') ← WNet_forward wnet h event_tensor;
      Ok (output_dict, WFlowNet nb ne wnet', h')
  | FlowNet nb ne unetflow =>
      '(output_dict, unetflow', h') ← UNetFlow_forward unetflow h event_tensor;
      Ok (output_dict, FlowNet nb ne unetflow', h')
  | FlowNetNoRecur _ _ unetflow _ =>
      output_dict ← UNetFlowNoRecur_forward unetflow event_tensor;
      Ok (output_dict, m, h)
  | E2VIDRecurrent nb ne unetrecurrent =>
      '(output_dict, unetrecurrent', h') ←
        UNetRecurrent_forward unetrecurrent h event_tensor;
      Ok (output_dict, E2VIDRecurrent nb ne unetrecurrent', h')
  | EVFlowNet _ _ unet _ =>
      output_dict ← EVFlowNet_forward unet event_tensor;
      Ok (output_dict, m, h)
  end.

End Forward.

(** The keys a forward pass may return. *)
Definition documented_keys : gset string := {[ "image"; "flow" ]}.

(** [y] has the batch and spatial dimensions [N], [H], [W]. *)
Definition shaped (N H W : nat) (y : tensor) : Prop :=
  ∃ C, shape y = [N; C; H; W] ∧ tensor_wf y.

Definition output_ok (N H W : nat) (d : gmap string tensor) : Prop :=
  d ≠ ∅ ∧ dom d ⊆ documented_keys ∧
  ∀ k y, d !! k = Some y → shaped N H W y.

(** Modelled from the spec: the [forward] of the recurrent networks
    [WNet], [UNetFlow] and [UNetRecurrent] of [model/unet.py], which is
    missing here.  On an input of shape N x num_bins x H x W it
    returns a mapping with key image and/or flow whose tensors have the
    batch and spatial dimensions of the input. *)
Definition recurrent_forward_contract (num_bins : nat)
    (fwd : rnet → heap → tensor → result (gmap string tensor * rnet * heap))
  : Prop :=
  ∀ n h x N H W, shape x = [N; num_bins; H; W] → tensor_wf x →
    ∃ d n' h', fwd n h x = Ok (d, n', h') ∧ output_ok N H W d.

(** Modelled from the spec: the [forward] of [UNetFlowNoRecur], likewise
    missing, with the same contract and no state. *)
Definition norecur_forward_contract (num_bins : nat)
    (fwd : fnet → tensor → result (gmap string tensor)) : Prop :=
  ∀ n x N H W, shape x = [N; num_bins; H; W] → tensor_wf x →
    ∃ d, fwd n x = Ok d ∧ output_ok N H W d.

(** Modelled from the spec: the [forward] of [UNet], likewise missing.  It
    returns the flow alone, N x 2 x H x W (x, y) displacements. *)
Definition unet_forward_contract (num_bins : nat)
    (fwd : fnet → tensor → result tensor) : Prop :=
  ∀ n x N H W, shape x = [N; num_bins; H; W] → tensor_wf x →
    ∃ flow, fwd n x = Ok flow ∧ shape flow = [N; 2%nat; H; W] ∧ tensor_wf flow.

Definition model_num_bins (m : model) : pyval :=
  match m with
  | WFlowNet nb _ _ | FlowNet nb _ _ | FlowNetNoRecur nb _ _ _
  | E2VIDRecurrent nb _ _ | EVFlowNet nb _ _ _ => nb
  end.

Definition model_num_encoders (m : model) : pyval :=
  match m with
  | WFlowNet _ ne _ | FlowNet _ ne _ | FlowNetNoRecur _ ne _ _
  | E2VIDRecurrent _ ne _ | EVFlowNet _ ne _ _ => ne
  end.

(** ** [EVFlowNet.__init__] *)

(** The 'hardcoded' EVFlowNet parameters. *)
Definition EVFlowNet_kwargs : gmap string pyval :=
  list_to_map
    [ ("base_num_channels", PInt 32);
      ("num_encoders", PInt 4);
      ("num_residual_blocks", PInt 2);
      ("num_output_channels", PInt 2);
      ("skip_type", PStr "concat");
      ("norm", PNone);
      ("use_upsample_conv", PBool true);
      ("kernel_size", PInt 3);
      ("channel_multiplier", PInt 2) ].

Definition dict_getitem (d : gmap string pyval) (k : string) : result pyval :=
  of_option KeyError (d !! k).

(** [d.update(other)]: the entries of [other] win. *)
Definition dict_update (d other : gmap string pyval) : gmap string pyval :=
  other ∪ d.

Section Init.

(** The constructor of [UNet] is defined in [model/unet.py], outside the
    file modelled here.  It receives the caller's dictionary itself and
    may change it. *)
Variable UNet : list (gmap string pyval) → loc
  → result (list (gmap string pyval) * fnet).

(** [st] is the store of dictionaries, [unet_kwargs] the location of the
    dictionary the caller passes. *)
Definition EVFlowNet_init (st : list (gmap string pyval)) (unet_kwargs : loc)
  : result (model * list (gmap string pyval)) :=
  d ← of_option BadRef (st !! unet_kwargs);
  let st1 := <[unet_kwargs := dict_update d EVFlowNet_kwargs]> st in
  d1 ← of_option BadRef (st1 !! unet_kwargs);
  num_bins ← dict_getitem d1 "num_bins";
  num_encoders ← dict_getitem d1 "num_encoders";
  '(st2, unet) ← UNet st1 unet_kwargs;
  Ok (EVFlowNet num_bins num_encoders unet None, st2).

End Init.

(** ** Copies of a state sequence *)

(** [a'] holds, in the tensors [ts], a copy of what [a] held in [ts0], at
    a location that [ts0] did not have. *)
Definition fresh_copy (ts0 ts : list tensor) (a a' : loc) : Prop :=
  (length ts0 ≤ a')%nat ∧ ∃ t, ts0 !! a = Some t ∧ ts !! a' = Some t.

Definition copy_of (ts0 ts : list tensor) (e e' : entry) : Prop :=
  match e, e' with
  | Absent, Absent => True
  | Gru a, Gru a' => fresh_copy ts0 ts a a'
  | Lstm a b, Lstm a' b' => fresh_copy ts0 ts a a' ∧ fresh_copy ts0 ts b b'
  | _, _ => False
  end.

(** The memo of a [deepcopy] in progress maps tensors of the original
    heap to their copies. *)
Definition memo_ok (ts0 ts : list tensor) (m : gmap loc loc) : Prop :=
  ∀ a a', m !! a = Some a' → fresh_copy ts0 ts a a'.

(** [c] in [h'] is a copy of the sequence [l] of [h]: a new list object
    whose entries are copies, in new tensors, of the entries of [l]; the
    objects of [h] are all still there, unchanged. *)
Definition is_copy (h : heap) (l : loc) (h' : heap) (c : loc) : Prop :=
  ∃ es es',
    lists h !! l = Some es ∧ c = length (lists h) ∧
    lists h' = lists h ++ [es'] ∧ tensors h `prefix_of` tensors h' ∧
    Forall2 (copy_of (tensors h) (tensors h')) es es'.

(** What the caller of a getter can rely on: [c] in [h'] reads like [l]
    did in [h], and nothing reachable from [c] is reachable from [l]. *)
Definition independent_copy (h : heap) (l : loc) (h' : heap) (c : loc) : Prop :=
  (* structurally equal, and the live sequence reads as before *)
  is_Some (read_states h l) ∧
  read_states h' c = read_states h l ∧
  read_states h' l = read_states h l ∧
  (* a new list object over new tensors *)
  c ≠ l ∧ lists h !! c = None ∧ states_ok h' c = true ∧
  (∀ es es', lists h !! l = Some es → lists h' !! c = Some es' →
     Forall2 (λ e e', same_kind e e' = true) es es' ∧
     ∀ a, a ∈ states_locs es' → tensors h !! a = None ∧ a ∉ states_locs es) ∧
  (* assigning to an item of the copy *)
  (∀ i e h2, list_setitem h' c i e = Ok h2 →
     read_states h2 l = read_states h l) ∧
  (* updating a tensor of the copy in place *)
  (∀ es' a t, lists h' !! c = Some es' → a ∈ states_locs es' →
     ∃ h2, tensor_write h' a t = Ok h2 ∧ read_states h2 l = read_states h l).

(** Reading [states] on [m], whose live sequence is [l], returns an
    independent copy of it. *)
Definition getter_copies (m : model) (h : heap) (l : loc) : Prop :=
  ∃ h' c, states m h = Ok (h', c) ∧ independent_copy h l h' c.

(** After [reset_states], reading [states] gives [n] absent entries. *)
Definition reset_gives_absent
    (rc : heap → loc → result (heap * loc)) (m : model) (h : heap) (n : Z)
  : Prop :=
  ∃ m1 h1 h2 c,
    reset_states m h = Ok (m1, h1) ∧
    get_states rc m1 h1 = Ok (h2, c) ∧
    lists h2 !! c = Some (replicate (Z.to_nat n) Absent) ∧
    Z.of_nat (length (replicate (Z.to_nat n) Absent)) = n.

(** ** The outputs of a forward pass *)

Definition everywhere_zero (t : tensor) : Prop :=
  Forall (λ x, is_zero x = true) (data t).

(** [img] is zero times the first channel of the N x C x H x W [flow],
    position by position: a zero where the flow is finite, a NaN where
    it is not. *)
Definition zeroed_first_channel (N C H W : nat) (flow img : tensor) : Prop :=
  shape img = [N; 1%nat; H; W] ∧ tensor_wf img ∧
  ∀ n p, (n < N)%nat → (p < H * W)%nat →
    ∃ v, data flow !! (n * (C * H * W) + p)%nat = Some v ∧
         data img !! (n * (H * W) + p)%nat = Some (f32_mul f32_zero v) ∧
         (is_finite v = true → is_zero (f32_mul f32_zero v) = true) ∧
         (is_finite v = false → f32_mul f32_zero v = S754_nan).

(** What a forward pass on an N x num_bins x H x W input returns. *)
Definition forward_ok
    (r : result (gmap string tensor * model * heap)) (m : model) (N H W : nat)
  : Prop :=
  ∃ d m' h',
    r = Ok (d, m', h') ∧ output_ok N H W d ∧
    (recurrent m = false → m' = m) ∧
    (∀ nb ne u a, m = EVFlowNet nb ne u a →
       ∃ flow img, d !! "flow" = Some flow ∧ shape flow = [N; 2%nat; H; W] ∧
                   d !! "image" = Some img ∧ shape img = [N; 1%nat; H; W]).

(** ** The caller's dictionary *)

(** The value under [key] of the dictionary at [k], if any. *)
Definition dict_at (st : list (gmap string pyval)) (k : loc) (key : string)
  : option pyval :=
  st !! k ≫= (.!! key).

(** ** Stand-ins for the wrapped networks, used in the examples *)

(** A network whose flow has a NaN in its first channel, as a UNet gives
    on a NaN input or with diverged weights. *)
Definition nan_flow : tensor :=
  Tensor [1; 2; 1; 2]%nat
    [S754_nan; S754_zero false; S754_zero false; S754_zero false].

(** Stand-ins for the wrapped networks that meet the contracts: they
    return zero tensors of the documented shapes. *)
Definition zeros (s : list nat) : tensor :=
  Tensor s (replicate (numel s) f32_zero).

Definition zero_outputs (x : tensor) : result (gmap string tensor) :=
  match shape x with
  | [N; _; H; W] =>
      Ok (<["image" := zeros [N; 1%nat; H; W]]>
            (<["flow" := zeros [N; 2%nat; H; W]]> ∅))
  | _ => Raise IndexError
  end.

Definition zero_rnet (n : rnet) (h : heap) (x : tensor)
  : result (gmap string tensor * rnet * heap) :=
  d ← zero_outputs x; Ok (d, n, h).

Definition zero_fnet (n : fnet) (x : tensor) : result (gmap string tensor) :=
  zero_outputs x.

Definition zero_unet (n : fnet) (x : tensor) : result tensor :=
  match shape x with
  | [N; _; H; W] => Ok (zeros [N; 2%nat; H; W])
  | _ => Raise IndexError
  end.

(** A stand-in for the constructor of [UNet]: it takes the entry
    final_activation out of the dictionary it is given and keeps the
    rest as its configuration. *)
Definition UNet_stub (st : list (gmap string pyval)) (k : loc)
  : result (list (gmap string pyval) * fnet) :=
  d ← of_option BadRef (st !! k);
  Ok (<[k := delete "final_activation" d]> st,
      FNet (delete "final_activation" d)).

Definition caller_kwargs : gmap string pyval :=
  list_to_map
    [ ("num_bins", PInt 5); ("num_encoders", PInt 7);
      ("skip_type", PStr "sum"); ("final_activation", PStr "sigmoid") ].

(** ** [__init__] of the other wrappers *)

Section Constructors.

(** The constructors of the wrapped networks are defined in
    [model/unet.py], outside the file modelled here.  They receive the
    caller's dictionary itself; the recurrent ones may allocate the state
    sequence they start with. *)
Variable WNet UNetFlow UNetRecurrent
  : list (gmap string pyval) → heap → loc
    → result (list (gmap string pyval) * heap * rnet).
Variable UNetFlowNoRecur
  : list (gmap string pyval) → loc → result (list (gmap string pyval) * fnet).

Definition WFlowNet_init
    (st : list (gmap string pyval)) (h : heap) (unet_kwargs : loc)
  : result (model * list (gmap string pyval) * heap) :=
  d ← of_option BadRef (st !! unet_kwargs);
  num_bins ← dict_getitem d "num_bins";
  num_encoders ← dict_getitem d "num_encoders";
  '(st', h', wnet) ← WNet st h unet_kwargs;
  Ok (WFlowNet num_bins num_encoders wnet, st', h').

Definition FlowNet_init
    (st : list (gmap string pyval)) (h : heap) (unet_kwargs : loc)
  : result (model * list (gmap string pyval) * heap) :=
  d ← of_option BadRef (st !! unet_kwargs);
  num_bins ← dict_getitem d "num_bins";
  num_encoders ← dict_getitem d "num_encoders";
  '(st', h', unetflow) ← UNetFlow st h unet_kwargs;
  Ok (FlowNet num_bins num_encoders unetflow, st', h').

Definition FlowNetNoRecur_init
    (st : list (gmap string pyval)) (unet_kwargs : loc)
  : result (model * list (gmap string pyval)) :=
  d ← of_option BadRef (st !! unet_kwargs);
  num_bins ← dict_getitem d "num_bins";
  num_encoders ← dict_getitem d "num_encoders";
  '(st', unetflow) ← UNetFlowNoRecur st unet_kwargs;
  Ok (FlowNetNoRecur num_bins num_encoders unetflow None, st').

Definition E2VIDRecurrent_init
    (st : list (gmap string pyval)) (h : heap) (unet_kwargs : loc)
  : result (model * list (gmap string pyval) * heap) :=
  d ← of_option BadRef (st !! unet_kwargs);
  num_bins ← dict_getitem d "num_bins";
  num_encoders ← dict_getitem d "num_encoders";
  '(st', h', unetrecurrent) ← UNetRecurrent st h unet_kwargs;
  Ok (E2VIDRecurrent num_bins num_encoders unetrecurrent, st', h').

End Constructors.

(** ** Renaming of tensor locations *)

(** [e'] is [e] with each tensor location replaced by its image under
    [m]. *)
Definition renamed (m : gmap loc loc) (e e' : entry) : Prop :=
  match e, e' with
  | Absent, Absent => True
  | Gru a, Gru a' => m !! a = Some a'
  | Lstm a b, Lstm a' b' => m !! a = Some a' ∧ m !! b = Some b'
  | _, _ => False
  end.

(** Stand-ins for the constructors of the wrapped networks: they keep the
    dictionary as it is; the recurrent one starts with an empty state
    sequence of its own. *)
Definition rnet_stub (st : list (gmap string pyval)) (h : heap) (k : loc)
  : result (list (gmap string pyval) * heap * rnet) :=
  Ok (st, Heap (tensors h) (lists h ++ [[]]), RNet 3 (length (lists h))).

Definition fnet_stub (st : list (gmap string pyval)) (k : loc)
  : result (list (gmap string pyval) * fnet) :=
  d ← of_option BadRef (st !! k);
  Ok (st, FNet d).

(** * Properties *)

(** ** Python indexing *)

Lemma py_index_0 (n : nat) : py_index (S n) 0 = Some 0%nat.
Proof.
  unfold py_index. simpl (0 <? 0).
  replace (0 <? Z.of_nat (S n)) with true; [done|].
  symmetry. apply Z.ltb_lt. lia.
Qed.

Lemma list_getitem_first {A} (x : A) (xs : list A) :
  list_getitem (x :: xs) 0 = Ok x.
Proof. unfold list_getitem. simpl length. by rewrite py_index_0. Qed.

Lemma list_getitem_nil {A} (i : Z) : list_getitem (@nil A) i = Raise IndexError.
Proof. unfold list_getitem. by destruct (py_index _ i). Qed.

(** ** Copies *)

Lemma fresh_copy_prefix ts0 ts ts' a a' :
  ts `prefix_of` ts' → fresh_copy ts0 ts a a' → fresh_copy ts0 ts' a a'.
Proof.
  intros Hp (Hle & t & H0 & H1). split; [done|].
  exists t. split; [done|]. by eapply prefix_lookup_Some.
Qed.

Lemma copy_of_prefix ts0 ts ts' e e' :
  ts `prefix_of` ts' → copy_of ts0 ts e e' → copy_of ts0 ts' e e'.
Proof.
  intros Hp. destruct e, e'; simpl; try done.
  - by apply fresh_copy_prefix.
  - intros [??]. split; by eapply fresh_copy_prefix.
Qed.

Lemma entry_ok_locs h e a :
  entry_ok h e = true → a ∈ entry_locs e → (a < length (tensors h))%nat.
Proof.
  unfold entry_ok. rewrite forallb_forall. intros H Ha.
  apply Nat.ltb_lt, H. by apply list_elem_of_In.
Qed.

Lemma clone_spec ts0 h a :
  ts0 `prefix_of` tensors h → (a < length ts0)%nat →
  ∃ h', clone h a = Ok (h', length (tensors h)) ∧
        lists h' = lists h ∧ tensors h `prefix_of` tensors h' ∧
        fresh_copy ts0 (tensors h') a (length (tensors h)).
Proof.
  intros Hp Ha.
  destruct (lookup_lt_is_Some_2 ts0 a Ha) as [t Ht].
  pose proof (prefix_lookup_Some _ _ _ _ Ht Hp) as Ht'.
  unfold clone, deref_tensor. rewrite Ht'. simpl.
  eexists. split; [reflexivity|]. simpl. split; [done|].
  split; [by apply prefix_app_r|]. split; [by apply prefix_length|].
  exists t. split; [done|]. by rewrite lookup_app_r, Nat.sub_diag.
Qed.

Lemma clone_entry_spec ts0 h e :
  ts0 `prefix_of` tensors h →
  (∀ a, a ∈ entry_locs e → (a < length ts0)%nat) →
  ∃ h' e', clone_entry h e = Ok (h', e') ∧
        lists h' = lists h ∧ tensors h `prefix_of` tensors h' ∧
        copy_of ts0 (tensors h') e e'.
Proof.
  intros Hp Hok. destruct e as [|a|a b]; simpl.
  - exists h, Absent. split_and!; simpl; done.
  - destruct (clone_spec ts0 h a Hp) as (h1 & E1 & L1 & P1 & C1).
    { apply Hok. set_solver. }
    rewrite E1. simpl. exists h1, (Gru (length (tensors h))).
    split_and!; simpl; done.
  - destruct (clone_spec ts0 h a Hp) as (h1 & E1 & L1 & P1 & C1).
    { apply Hok. set_solver. }
    destruct (clone_spec ts0 h1 b) as (h2 & E2 & L2 & P2 & C2).
    { by etrans. }
    { apply Hok. set_solver. }
    rewrite E1. simpl. rewrite E2. simpl.
    exists h2, (Lstm (length (tensors h)) (length (tensors h1))).
    split; [done|]. split; [congruence|]. split; [by etrans|].
    split; [by eapply fresh_copy_prefix|done].
Qed.

Lemma clone_entries_spec ts0 es : ∀ h,
  ts0 `prefix_of` tensors h →
  (∀ e a, e ∈ es → a ∈ entry_locs e → (a < length ts0)%nat) →
  ∃ h' es', clone_entries h es = Ok (h', es') ∧
        lists h' = lists h ∧ tensors h `prefix_of` tensors h' ∧
        Forall2 (copy_of ts0 (tensors h')) es es'.
Proof.
  induction es as [|e es IH]; intros h Hp Hok; simpl.
  - exists h, []. split_and!; simpl; done.
  - destruct (clone_entry_spec ts0 h e Hp) as (h1 & e' & E1 & L1 & P1 & C1).
    { intros a. apply Hok. set_solver. }
    destruct (IH h1) as (h2 & es' & E2 & L2 & P2 & C2).
    { by etrans. }
    { intros e0 a He0. apply Hok. set_solver. }
    rewrite E1. simpl. rewrite E2. simpl.
    exists h2, (e' :: es'). split; [done|]. split; [congruence|].
    split; [by etrans|]. constructor; [by eapply copy_of_prefix|done].
Qed.

Lemma deepcopy_tensor_spec ts0 h m a :
  ts0 `prefix_of` tensors h → memo_ok ts0 (tensors h) m →
  (a < length ts0)%nat →
  ∃ h' m' a', deepcopy_tensor h m a = Ok (h', m', a') ∧
        lists h' = lists h ∧ tensors h `prefix_of` tensors h' ∧
        memo_ok ts0 (tensors h') m' ∧ fresh_copy ts0 (tensors h') a a'.
Proof.
  intros Hp Hm Ha. unfold deepcopy_tensor.
  destruct (m !! a) as [a'|] eqn:Hma.
  - exists h, m, a'. split_and!; auto.
  - destruct (lookup_lt_is_Some_2 ts0 a Ha) as [t Ht].
    pose proof (prefix_lookup_Some _ _ _ _ Ht Hp) as Ht'.
    unfold deref_tensor. rewrite Ht'. simpl.
    assert (fresh_copy ts0 (tensors h ++ [t]) a (length (tensors h))) as Hf.
    { split; [by apply prefix_length|].
      exists t. split; [done|]. by rewrite lookup_app_r, Nat.sub_diag. }
    eexists _, _, _. split; [reflexivity|]. simpl.
    split; [done|]. split; [by apply prefix_app_r|]. split; [|done].
    intros b b'. rewrite lookup_insert. case_decide; [naive_solver|].
    intros Hb. eapply fresh_copy_prefix; [|by apply Hm].
    by apply prefix_app_r.
Qed.

Lemma deepcopy_entry_spec ts0 h m e :
  ts0 `prefix_of` tensors h → memo_ok ts0 (tensors h) m →
  (∀ a, a ∈ entry_locs e → (a < length ts0)%nat) →
  ∃ h' m' e', deepcopy_entry h m e = Ok (h', m', e') ∧
        lists h' = lists h ∧ tensors h `prefix_of` tensors h' ∧
        memo_ok ts0 (tensors h') m' ∧ copy_of ts0 (tensors h') e e'.
Proof.
  intros Hp Hm Hok. destruct e as [|a|a b]; simpl.
  - exists h, m, Absent. split_and!; simpl; done.
  - destruct (deepcopy_tensor_spec ts0 h m a Hp Hm)
      as (h1 & m1 & a' & E1 & L1 & P1 & M1 & C1).
    { apply Hok. set_solver. }
    rewrite E1. simpl. exists h1, m1, (Gru a'). split_and!; simpl; done.
  - destruct (deepcopy_tensor_spec ts0 h m a Hp Hm)
      as (h1 & m1 & a' & E1 & L1 & P1 & M1 & C1).
    { apply Hok. set_solver. }
    destruct (deepcopy_tensor_spec ts0 h1 m1 b)
      as (h2 & m2 & b' & E2 & L2 & P2 & M2 & C2); [by etrans|done|..].
    { apply Hok. set_solver. }
    rewrite E1. simpl. rewrite E2. simpl.
    exists h2, m2, (Lstm a' b').
    split; [done|]. split; [congruence|]. split; [by etrans|].
    split; [done|]. split; [by eapply fresh_copy_prefix|done].
Qed.

Lemma deepcopy_entries_spec ts0 es : ∀ h m,
  ts0 `prefix_of` tensors h → memo_ok ts0 (tensors h) m →
  (∀ e a, e ∈ es → a ∈ entry_locs e → (a < length ts0)%nat) →
  ∃ h' m' es', deepcopy_entries h m es = Ok (h', m', es') ∧
        lists h' = lists h ∧ tensors h `prefix_of` tensors h' ∧
        Forall2 (copy_of ts0 (tensors h')) es es'.
Proof.
  induction es as [|e es IH]; intros h m Hp Hm Hok; simpl.
  - exists h, m, []. split_and!; simpl; done.
  - destruct (deepcopy_entry_spec ts0 h m e Hp Hm)
      as (h1 & m1 & e' & E1 & L1 & P1 & M1 & C1).
    { intros a. apply Hok. set_solver. }
    destruct (IH h1 m1) as (h2 & m2 & es' & E2 & L2 & P2 & C2);
      [by etrans|done|..].
    { intros e0 a He0. apply Hok. set_solver. }
    rewrite E1. simpl. rewrite E2. simpl.
    exists h2, m2, (e' :: es'). split; [done|]. split; [congruence|].
    split; [by etrans|]. constructor; [by eapply copy_of_prefix|done].
Qed.

(** Entries of an all-absent sequence are atoms: [deepcopy] allocates no
    tensor for them. *)
Lemma deepcopy_entries_absent h m (n : nat) :
  deepcopy_entries h m (replicate n Absent) = Ok (h, m, replicate n Absent).
Proof. induction n as [|n IH]; simpl; [done|]. by rewrite IH. Qed.

(** ** What a copy of a state sequence guarantees *)

Lemma states_ok_locs h l es :
  states_ok h l = true → lists h !! l = Some es →
  ∀ e a, e ∈ es → a ∈ entry_locs e → (a < length (tensors h))%nat.
Proof.
  unfold states_ok. intros Hok Hl. rewrite Hl in Hok.
  rewrite forallb_forall in Hok. intros e a He.
  apply entry_ok_locs, Hok. by apply list_elem_of_In.
Qed.

Lemma recursive_clone_is_copy h l :
  states_ok h l = true →
  ∃ h' c, recursive_clone h l = Ok (h', c) ∧ is_copy h l h' c.
Proof.
  intros Hok. destruct (lists h !! l) as [es|] eqn:Hl;
    [|unfold states_ok in Hok; by rewrite Hl in Hok].
  destruct (clone_entries_spec (tensors h) es h) as (h1 & es' & E & L & P & C);
    [done|by eapply states_ok_locs|].
  unfold recursive_clone, deref_list. rewrite Hl. simpl. rewrite E. simpl.
  eexists _, _. split; [reflexivity|].
  exists es, es'. simpl. rewrite L. by split_and!.
Qed.

Lemma deepcopy_is_copy h l :
  states_ok h l = true →
  ∃ h' c, deepcopy h l = Ok (h', c) ∧ is_copy h l h' c.
Proof.
  intros Hok. destruct (lists h !! l) as [es|] eqn:Hl;
    [|unfold states_ok in Hok; by rewrite Hl in Hok].
  destruct (deepcopy_entries_spec (tensors h) es h ∅)
    as (h1 & m1 & es' & E & L & P & C);
    [done| |by eapply states_ok_locs|].
  { intros a a'. by rewrite lookup_empty. }
  unfold deepcopy, deref_list. rewrite Hl. simpl. rewrite E. simpl.
  eexists _, _. split; [reflexivity|].
  exists es, es'. simpl. rewrite L. by split_and!.
Qed.

Lemma read_entry_agree h1 h2 e :
  (∀ a, a ∈ entry_locs e → tensors h1 !! a = tensors h2 !! a) →
  read_entry h1 e = read_entry h2 e.
Proof.
  destruct e as [|a|a b]; simpl; intros H; [done|..].
  - rewrite (H a); [done|set_solver].
  - rewrite (H a), (H b); [done|set_solver..].
Qed.

Lemma mapM_read_agree h1 h2 es :
  (∀ e a, e ∈ es → a ∈ entry_locs e → tensors h1 !! a = tensors h2 !! a) →
  mapM (read_entry h1) es = mapM (read_entry h2) es.
Proof.
  induction es as [|e es IH]; intros H; simpl; [done|].
  rewrite (read_entry_agree h1 h2 e), IH; [done|..].
  - intros e0 a He0. apply H. set_solver.
  - intros a. apply H. set_solver.
Qed.

Lemma read_states_agree h1 h2 l es :
  lists h1 !! l = Some es → lists h2 !! l = Some es →
  (∀ e a, e ∈ es → a ∈ entry_locs e → tensors h1 !! a = tensors h2 !! a) →
  read_states h1 l = read_states h2 l.
Proof.
  intros H1 H2 H. unfold read_states. rewrite H1, H2. simpl.
  by apply mapM_read_agree.
Qed.

Lemma copy_of_read h h' e e' :
  copy_of (tensors h) (tensors h') e e' →
  read_entry h' e' = read_entry h e ∧ is_Some (read_entry h e).
Proof.
  destruct e as [|a|a b], e' as [|a'|a' b']; simpl; try done.
  - intros (_ & t & -> & ->). by simpl.
  - intros [(_ & t & -> & ->) (_ & u & -> & ->)]. by simpl.
Qed.

Lemma copies_read h h' es es' :
  Forall2 (copy_of (tensors h) (tensors h')) es es' →
  mapM (read_entry h') es' = mapM (read_entry h) es ∧
  is_Some (mapM (read_entry h) es).
Proof.
  induction 1 as [|e e' es es' He _ [IH1 [vs IH2]]]; simpl; [done|].
  destruct (copy_of_read _ _ _ _ He) as [-> [v ->]].
  rewrite IH1, IH2. by simpl.
Qed.

Lemma copy_of_kind ts0 ts e e' : copy_of ts0 ts e e' → same_kind e e' = true.
Proof. by destruct e, e'. Qed.

Lemma copy_of_old ts0 ts e e' a :
  copy_of ts0 ts e e' → a ∈ entry_locs e → (a < length ts0)%nat.
Proof.
  destruct e as [|x|x y], e' as [|x'|x' y']; simpl; try done.
  - set_solver.
  - intros (_ & t & Ht & _) ->%list_elem_of_singleton.
    by eapply lookup_lt_Some.
  - intros [(_ & t & Ht & _) (_ & u & Hu & _)] Ha.
    rewrite !elem_of_cons, elem_of_nil in Ha.
    destruct Ha as [->|[->|[]]]; by eapply lookup_lt_Some.
Qed.

Lemma copy_of_new ts0 ts e e' a :
  copy_of ts0 ts e e' → a ∈ entry_locs e' →
  (length ts0 ≤ a < length ts)%nat.
Proof.
  destruct e as [|x|x y], e' as [|x'|x' y']; simpl; try done.
  - set_solver.
  - intros (Hle & t & _ & Ht) ->%list_elem_of_singleton.
    split; [done|]. by eapply lookup_lt_Some.
  - intros [(Hx & t & _ & Ht) (Hy & u & _ & Hu)] Ha.
    rewrite !elem_of_cons, elem_of_nil in Ha.
    destruct Ha as [->|[->|[]]]; (split; [done|]; by eapply lookup_lt_Some).
Qed.

Lemma copies_old ts0 ts es es' e a :
  Forall2 (copy_of ts0 ts) es es' → e ∈ es → a ∈ entry_locs e →
  (a < length ts0)%nat.
Proof.
  intros HF He Ha. apply list_elem_of_lookup in He as [i Hi].
  destruct (Forall2_lookup_l _ _ _ _ _ HF Hi) as (e' & _ & Hc).
  by eapply copy_of_old.
Qed.

Lemma copies_new ts0 ts es es' e' a :
  Forall2 (copy_of ts0 ts) es es' → e' ∈ es' → a ∈ entry_locs e' →
  (length ts0 ≤ a < length ts)%nat.
Proof.
  intros HF He Ha. apply list_elem_of_lookup in He as [i Hi].
  destruct (Forall2_lookup_r _ _ _ _ _ HF Hi) as (e & _ & Hc).
  by eapply copy_of_new.
Qed.

Lemma elem_of_states_locs es a :
  a ∈ states_locs es ↔ ∃ e, e ∈ es ∧ a ∈ entry_locs e.
Proof.
  unfold states_locs. rewrite list_elem_of_In, in_flat_map.
  split; intros (e & He & Ha); exists e;
    by rewrite ?list_elem_of_In in *.
Qed.

Lemma is_copy_independent h l h' c :
  is_copy h l h' c → independent_copy h l h' c.
Proof.
  intros (es & es' & Hl & -> & HL & HP & HF).
  pose proof (lookup_lt_Some _ _ _ Hl) as Hlt.
  assert (lists h' !! l = Some es) as Hl'.
  { rewrite HL. by rewrite lookup_app_l. }
  assert (lists h' !! length (lists h) = Some es') as Hc'.
  { rewrite HL. by apply list_lookup_middle. }
  assert (∀ e a, e ∈ es → a ∈ entry_locs e →
            tensors h' !! a = tensors h !! a) as Hagree.
  { intros e a He Ha.
    pose proof (copies_old _ _ _ _ _ _ HF He Ha) as Hlen.
    destruct (lookup_lt_is_Some_2 _ _ Hlen) as [t Ht].
    rewrite Ht. by eapply prefix_lookup_Some. }
  destruct (copies_read _ _ _ _ HF) as [R1 R2].
  unfold independent_copy. split_and!.
  - unfold read_states. by rewrite Hl.
  - unfold read_states. by rewrite Hc', Hl.
  - by eapply read_states_agree.
  - lia.
  - by apply lookup_ge_None.
  - unfold states_ok. rewrite Hc'. apply forallb_forall.
    intros e' He'. apply forallb_forall. intros a Ha.
    apply Nat.ltb_lt.
    eapply (copies_new _ _ _ _ e' a HF); by apply list_elem_of_In.
  - intros es0 es0' H0 H0'. rewrite Hl in H0. rewrite Hc' in H0'.
    simplify_eq. split.
    + eapply Forall2_impl; [done|]. intros e e'. apply copy_of_kind.
    + intros a (e' & He' & Ha)%elem_of_states_locs.
      pose proof (copies_new _ _ _ _ _ _ HF He' Ha) as [Hge _].
      split; [by apply lookup_ge_None|].
      intros (e & He & Ha')%elem_of_states_locs.
      pose proof (copies_old _ _ _ _ _ _ HF He Ha'). lia.
  - intros i e h2 H. unfold list_setitem, deref_list in H.
    rewrite Hc' in H. simpl in H.
    destruct (py_index (length es') i) as [j|]; simpl in H; [|done].
    simplify_eq. eapply read_states_agree; [|done|].
    + simpl. rewrite list_lookup_insert_ne; [done|lia].
    + simpl. intros e0 a He0 Ha. by eapply Hagree.
  - intros es0' a t H0' (e' & He' & Ha)%elem_of_states_locs.
    rewrite Hc' in H0'. simplify_eq.
    pose proof (copies_new _ _ _ _ _ _ HF He' Ha) as [Hge Hlt'].
    destruct (lookup_lt_is_Some_2 _ _ Hlt') as [u Hu].
    unfold tensor_write, deref_tensor. rewrite Hu. simpl.
    eexists. split; [reflexivity|].
    eapply read_states_agree; [done..|].
    simpl. intros e0 b He0 Hb.
    pose proof (copies_old _ _ _ _ _ _ HF He0 Hb).
    rewrite list_lookup_insert_ne; [|lia]. by eapply Hagree.
Qed.

Lemma copy_states_first rc h l e es :
  lists h !! l = Some (e :: es) →
  copy_states rc h l = if is_absent e then deepcopy h l else rc h l.
Proof.
  intros Hl. unfold copy_states, deref_list. rewrite Hl.
  cbn [of_option mbind result_bind]. by rewrite list_getitem_first.
Qed.

Lemma copy_states_is_copy h l e es :
  lists h !! l = Some (e :: es) → states_ok h l = true →
  ∃ h' c, copy_states recursive_clone h l = Ok (h', c) ∧ is_copy h l h' c.
Proof.
  intros Hl Hok. rewrite (copy_states_first _ _ _ _ _ Hl).
  destruct (is_absent e);
    [by apply deepcopy_is_copy|by apply recursive_clone_is_copy].
Qed.

(** ** The claims on the state accessors *)

(** C1, amended: for every recurrent wrapper whose live state sequence is
    not empty, reading the [states] property returns a copy that is
    structurally equal to the live sequence and shares no storage with
    it: assigning to an item of the copy, or updating one of its tensors
    in place, leaves the live sequence as it was. *)
Theorem states_getter_independent_copy
    (m : model) (h : heap) (l : loc) (e : entry) (es : list entry) :
  live m = Some l →
  lists h !! l = Some (e :: es) →
  states_ok h l = true →
  getter_copies m h l.
Proof.
  intros Hm Hl Hok. unfold getter_copies, states.
  assert (get_states recursive_clone m h = copy_states recursive_clone h l)
    as ->.
  { destruct m as [? ? n|? ? n|? ? n ?|? ? n|? ? n ?]; simpl in Hm;
      by simplify_eq. }
  rewrite (copy_states_first _ _ _ _ _ Hl).
  destruct (is_absent e).
  - destruct (deepcopy_is_copy h l Hok) as (h' & c & E & Hc).
    exists h', c. split; [done|by apply is_copy_independent].
  - destruct (recursive_clone_is_copy h l Hok) as (h' & c & E & Hc).
    exists h', c. split; [done|by apply is_copy_independent].
Qed.

Lemma states_getter_independent_copy_witness :
  getter_copies
    (WFlowNet (PInt 5) (PInt 2) (RNet 2 0))
    (Heap [Tensor [1; 1]%nat [S754_zero false]; Tensor [1]%nat [S754_nan]]
          [[Gru 0%nat; Lstm 0%nat 1%nat]])
    0%nat.
Proof.
  apply (states_getter_independent_copy _ _ 0%nat (Gru 0%nat) [Lstm 0%nat 1%nat]);
    reflexivity.
Defined.

(** C1 as stated fails on an empty live sequence: the getter raises. *)
Lemma states_getter_empty_counterexample :
  live (WFlowNet (PInt 5) (PInt 0) (RNet 0 0)) = Some 0%nat ∧
  states_ok (Heap [] [[]]) 0%nat = true ∧
  states (WFlowNet (PInt 5) (PInt 0) (RNet 0 0)) (Heap [] [[]])
    = Raise IndexError ∧
  ¬ getter_copies (WFlowNet (PInt 5) (PInt 0) (RNet 0 0)) (Heap [] [[]]) 0%nat.
Proof.
  split_and!; try reflexivity.
  intros (h' & c & E & _). discriminate E.
Qed.

(** C2, amended: for every recurrent wrapper (WFlowNet, FlowNet,
    E2VIDRecurrent) whose wrapped network has an encoder count of at least
    one, calling [reset_states] and then reading [states] yields a
    sequence whose every entry is absent and whose length is that encoder
    count. *)
Theorem reset_then_states_all_absent
    (rc : heap → loc → result (heap * loc)) (m : model) (h : heap) (n : Z) :
  encoders m = Some n →
  1 ≤ n →
  reset_gives_absent rc m h n.
Proof.
  intros Hm Hn. unfold reset_gives_absent.
  assert (∃ k, Z.to_nat n = S k) as [k Hk] by (exists (Z.to_nat (n - 1)); lia).
  set (h1 := Heap (tensors h) (lists h ++ [replicate (Z.to_nat n) Absent])).
  assert (lists h1 !! length (lists h) = Some (replicate (Z.to_nat n) Absent))
    as Hl by by apply list_lookup_middle.
  assert (copy_states rc h1 (length (lists h))
          = Ok (alloc_list h1 (replicate (Z.to_nat n) Absent))) as Hcopy.
  { rewrite Hk in Hl |- *. simpl replicate in Hl.
    rewrite (copy_states_first _ _ _ _ _ Hl). simpl is_absent. cbv iota.
    unfold deepcopy, deref_list. rewrite Hl.
    cbn [of_option mbind result_bind].
    by rewrite (deepcopy_entries_absent h1 ∅ (S k)). }
  destruct m as [? ? w|? ? w|? ? w ?|? ? w|? ? w ?]; simpl in Hm; simplify_eq;
    (eexists _, h1, _, _; split; [reflexivity|]; split; [exact Hcopy|];
     split; [by apply list_lookup_middle|];
     rewrite length_replicate; lia).
Qed.

Lemma reset_then_states_all_absent_witness :
  reset_gives_absent recursive_clone
    (E2VIDRecurrent (PInt 5) (PInt 3) (RNet 3 0))
    (Heap [Tensor [1]%nat [S754_nan]] [[Gru 0%nat; Gru 0%nat; Gru 0%nat]]) 3.
Proof.
  apply reset_then_states_all_absent; [reflexivity|lia].
Defined.

(** C2 as stated fails for the variants without a state sequence, which
    have no [states] to read, and for an encoder count of zero, where the
    reset sequence is empty and the getter raises. *)
Lemma reset_then_states_counterexample :
  (∀ rc,
    reset_states (FlowNetNoRecur (PInt 5) (PInt 3) (FNet ∅) None) (Heap [] [])
      = Ok (FlowNetNoRecur (PInt 5) (PInt 3) (FNet ∅) None, Heap [] []) ∧
    get_states rc (FlowNetNoRecur (PInt 5) (PInt 3) (FNet ∅) None) (Heap [] [])
      = Raise AttributeError ∧
    ¬ reset_gives_absent rc
        (FlowNetNoRecur (PInt 5) (PInt 3) (FNet ∅) None) (Heap [] []) 3) ∧
  (∀ rc,
    reset_states (FlowNet (PInt 5) (PInt 0) (RNet 0 0)) (Heap [] [[]])
      = Ok (FlowNet (PInt 5) (PInt 0) (RNet 0 1), Heap [] [[]; []]) ∧
    get_states rc (FlowNet (PInt 5) (PInt 0) (RNet 0 1)) (Heap [] [[]; []])
      = Raise IndexError ∧
    ¬ reset_gives_absent rc (FlowNet (PInt 5) (PInt 0) (RNet 0 0))
        (Heap [] [[]]) 0).
Proof.
  split; intros rc; (split_and!; [reflexivity..|]);
    intros (m1 & h1 & h2 & c & E1 & E2 & _); simpl in E1; simplify_eq;
    discriminate E2.
Qed.

(** C3: [copy_states] copies an all-absent state sequence with
    [copy.deepcopy], which gives a new list object of as many absent
    entries and allocates no tensor; it copies a populated sequence with
    [recursive_clone], which gives an independent copy: entry by entry a
    pair stays a pair and a single tensor a single tensor, with equal
    contents, in tensors the input does not share. *)
Theorem copy_states_strategies
    (h : heap) (l : loc) (e : entry) (es : list entry) :
  lists h !! l = Some (e :: es) →
  states_ok h l = true →
  (Forall (λ x, is_absent x = true) (e :: es) →
     copy_states recursive_clone h l = deepcopy h l ∧
     deepcopy h l = Ok (alloc_list h (e :: es))) ∧
  (Forall (λ x, is_absent x = false) (e :: es) →
     copy_states recursive_clone h l = recursive_clone h l ∧
     ∃ h' c, recursive_clone h l = Ok (h', c) ∧ independent_copy h l h' c).
Proof.
  intros Hl Hok. rewrite (copy_states_first _ _ _ _ _ Hl). split; intros HF.
  - assert (e :: es = replicate (length (e :: es)) Absent) as Hrep.
    { symmetry. apply replicate_as_Forall. split; [done|].
      eapply Forall_impl; [exact HF|]. by intros []. }
    inversion HF as [|? ? He _]; subst. rewrite He. split; [done|].
    unfold deepcopy, deref_list. rewrite Hl.
    cbn [of_option mbind result_bind].
    rewrite Hrep at 1. rewrite deepcopy_entries_absent. by rewrite <- Hrep.
  - inversion HF as [|? ? He _]; subst. rewrite He. split; [done|].
    destruct (recursive_clone_is_copy h l Hok) as (h' & c & E & Hc).
    exists h', c. split; [done|by apply is_copy_independent].
Qed.

Lemma copy_states_strategies_witness :
  copy_states recursive_clone
    (Heap [Tensor [1]%nat [S754_zero true]] [[Absent; Absent]]) 0%nat
  = Ok (Heap [Tensor [1]%nat [S754_zero true]]
             [[Absent; Absent]; [Absent; Absent]], 1%nat) ∧
  ∃ h' c,
    copy_states recursive_clone
      (Heap [Tensor [1]%nat [S754_zero true]] [[Lstm 0%nat 0%nat; Gru 0%nat]])
      0%nat = Ok (h', c) ∧
    read_states h' c
    = Some [VLstm (Tensor [1]%nat [S754_zero true])
                  (Tensor [1]%nat [S754_zero true]);
            VGru (Tensor [1]%nat [S754_zero true])].
Proof.
  split.
  - destruct (copy_states_strategies
                (Heap [Tensor [1]%nat [S754_zero true]] [[Absent; Absent]])
                0%nat Absent [Absent] eq_refl eq_refl) as [Habs _].
    destruct Habs as [-> ->]; [by repeat constructor|reflexivity].
  - destruct (copy_states_strategies
                (Heap [Tensor [1]%nat [S754_zero true]]
                      [[Lstm 0%nat 0%nat; Gru 0%nat]])
                0%nat (Lstm 0%nat 0%nat) [Gru 0%nat] eq_refl eq_refl)
      as [_ Hpop].
    destruct Hpop as (-> & h' & c & E & _ & R & _); [by repeat constructor|].
    exists h', c. split; [exact E|]. rewrite R. reflexivity.
Defined.

(** The getter on a model whose live sequence is [l]. *)
Lemma states_after_set m h l e es :
  live m = Some l → lists h !! l = Some (e :: es) → states_ok h l = true →
  ∃ h' c, states m h = Ok (h', c) ∧ independent_copy h l h' c.
Proof.
  intros Hm Hl Hok.
  destruct (copy_states_is_copy h l e es Hl Hok) as (h' & c & E & Hc).
  exists h', c. split; [|by apply is_copy_independent].
  unfold states.
  destruct m as [? ? n|? ? n|? ? n ?|? ? n|? ? n ?]; simpl in Hm;
    simplify_eq; exact E.
Qed.

(** C5: on every recurrent wrapper the [states] setter makes the given
    sequence the live one, whatever it is; for a well-formed sequence [s]
    (not empty, its tensors allocated) the getter then returns an
    independent copy of [s], and setting that copy back gives a live
    state that reads as [s] did and that the getter copies again. *)
Theorem states_setter_roundtrip
    (m : model) (h : heap) (s : loc) (e : entry) (es : list entry) :
  recurrent m = true →
  lists h !! s = Some (e :: es) →
  states_ok h s = true →
  (∀ s', live (set_states m s') = Some s' ∧
         encoders (set_states m s') = encoders m) ∧
  ∃ h1 c,
    states (set_states m s) h = Ok (h1, c) ∧
    independent_copy h s h1 c ∧
    live (set_states (set_states m s) c) = Some c ∧
    ∃ h2 c2,
      states (set_states (set_states m s) c) h1 = Ok (h2, c2) ∧
      read_states h2 c2 = read_states h s ∧
      independent_copy h1 c h2 c2.
Proof.
  intros Hm Hs Hok.
  assert (∀ m0 s', recurrent m0 = true →
            live (set_states m0 s') = Some s' ∧
            encoders (set_states m0 s') = encoders m0 ∧
            recurrent (set_states m0 s') = true) as Hset.
  { intros [] s' H0; simpl in *; done. }
  split; [intros s'; by destruct (Hset m s' Hm) as (? & ? & ?)|].
  destruct (Hset m s Hm) as (L1 & _ & R1).
  destruct (states_after_set _ _ _ _ _ L1 Hs Hok)
    as (h1 & c & E1 & I1).
  exists h1, c. split; [done|]. split; [done|].
  destruct (Hset (set_states m s) c R1) as (L2 & _ & _).
  split; [done|].
  pose proof I1 as (_ & Req & _ & _ & _ & Hok1 & Hk & _).
  destruct (lists h1 !! c) as [es1|] eqn:Hc;
    [|unfold states_ok in Hok1; by rewrite Hc in Hok1].
  destruct (Hk _ _ Hs eq_refl) as [HF _].
  inversion HF as [|? e1 ? es1' _ _]; subst.
  destruct (states_after_set _ _ _ _ _ L2 Hc Hok1)
    as (h2 & c2 & E2 & I2).
  exists h2, c2. split; [done|]. split; [|done].
  destruct I2 as (_ & -> & _). done.
Qed.

Lemma states_setter_roundtrip_witness :
  ∃ h1 c h2 c2,
    states (set_states (FlowNet (PInt 5) (PInt 1) (RNet 1 0)) 1%nat)
      (Heap [Tensor [1]%nat [S754_infinity true]] [[Absent]; [Gru 0%nat]])
      = Ok (h1, c) ∧
    states (set_states (set_states (FlowNet (PInt 5) (PInt 1) (RNet 1 0)) 1%nat) c)
      h1 = Ok (h2, c2) ∧
    read_states h2 c2 = Some [VGru (Tensor [1]%nat [S754_infinity true])].
Proof.
  destruct (states_setter_roundtrip
              (FlowNet (PInt 5) (PInt 1) (RNet 1 0))
              (Heap [Tensor [1]%nat [S754_infinity true]] [[Absent]; [Gru 0%nat]])
              1%nat (Gru 0%nat) [] eq_refl eq_refl eq_refl)
    as (_ & h1 & c & E1 & _ & _ & h2 & c2 & E2 & R & _).
  exists h1, c, h2, c2. split; [exact E1|]. split; [exact E2|].
  rewrite R. reflexivity.
Defined.

(** C6: [reset_states] of [FlowNetNoRecur] and of [EVFlowNet] returns
    without raising and leaves the model and the heap exactly as they
    were: nothing is allocated. *)
Theorem reset_states_noop_nonrecurrent
    (nb ne : pyval) (n : fnet) (a : option loc) (h : heap) :
  reset_states (FlowNetNoRecur nb ne n a) h = Ok (FlowNetNoRecur nb ne n a, h) ∧
  reset_states (EVFlowNet nb ne n a) h = Ok (EVFlowNet nb ne n a, h).
Proof. split; reflexivity. Qed.

(** C9: [copy_states] applied to an empty sequence raises [IndexError],
    whatever [recursive_clone] is, and so does the [states] getter of
    every recurrent wrapper whose live sequence is empty. *)
Theorem copy_states_empty_raises
    (rc : heap → loc → result (heap * loc)) (h : heap) (l : loc) :
  lists h !! l = Some [] →
  copy_states rc h l = Raise IndexError ∧
  ∀ m, live m = Some l → get_states rc m h = Raise IndexError.
Proof.
  intros Hl.
  assert (copy_states rc h l = Raise IndexError) as Hc.
  { unfold copy_states, deref_list. rewrite Hl.
    cbn [of_option mbind result_bind]. by rewrite list_getitem_nil. }
  split; [done|].
  intros [? ? n|? ? n|? ? n ?|? ? n|? ? n ?] Hm; simpl in Hm; simplify_eq;
    exact Hc.
Qed.

Lemma copy_states_empty_raises_witness :
  copy_states recursive_clone (Heap [] [[Absent]; []]) 1%nat = Raise IndexError ∧
  get_states recursive_clone (E2VIDRecurrent (PInt 5) (PInt 1) (RNet 1 1))
    (Heap [] [[Absent]; []]) = Raise IndexError.
Proof.
  destruct (copy_states_empty_raises recursive_clone (Heap [] [[Absent]; []])
              1%nat eq_refl) as [Hc Hg].
  split; [exact Hc|]. apply Hg. reflexivity.
Defined.

(** C10: [copy_states] decides by the first entry alone.  When the first
    entry of a sequence is absent the whole sequence is handed to
    [copy.deepcopy], whatever the later entries are; when it is a tensor
    or a pair of tensors the whole sequence is handed to
    [recursive_clone], whatever the later entries are. *)
Theorem copy_states_looks_at_first
    (rc : heap → loc → result (heap * loc))
    (h : heap) (l : loc) (e : entry) (es : list entry) :
  lists h !! l = Some (e :: es) →
  (e = Absent → copy_states rc h l = deepcopy h l) ∧
  (e ≠ Absent → copy_states rc h l = rc h l).
Proof.
  intros Hl. rewrite (copy_states_first _ _ _ _ _ Hl).
  split; intros He; destruct e; simpl; congruence.
Qed.

Lemma copy_states_looks_at_first_witness :
  copy_states recursive_clone
    (Heap [Tensor [1]%nat [S754_nan]]
          [[Absent; Gru 0%nat]; [Lstm 0%nat 0%nat; Absent]]) 0%nat
  = deepcopy
      (Heap [Tensor [1]%nat [S754_nan]]
            [[Absent; Gru 0%nat]; [Lstm 0%nat 0%nat; Absent]]) 0%nat ∧
  copy_states recursive_clone
    (Heap [Tensor [1]%nat [S754_nan]]
          [[Absent; Gru 0%nat]; [Lstm 0%nat 0%nat; Absent]]) 1%nat
  = recursive_clone
      (Heap [Tensor [1]%nat [S754_nan]]
            [[Absent; Gru 0%nat]; [Lstm 0%nat 0%nat; Absent]]) 1%nat.
Proof.
  split.
  - apply (copy_states_looks_at_first recursive_clone _ 0%nat Absent [Gru 0%nat]);
      reflexivity.
  - apply (copy_states_looks_at_first recursive_clone _ 1%nat
             (Lstm 0%nat 0%nat) [Absent]); [reflexivity|discriminate].
Defined.

(** ** The placeholder image of [EVFlowNet.forward] *)

Lemma f32_mul_zero (x : f32) :
  f32_mul f32_zero x =
  match x with
  | S754_zero s | S754_finite s _ _ => S754_zero s
  | _ => S754_nan
  end.
Proof. by destruct x as [[]|[]| |[] ? ?]. Qed.

Lemma f32_mul_zero_finite (x : f32) :
  is_finite x = true → is_zero (f32_mul f32_zero x) = true.
Proof. rewrite f32_mul_zero. by destruct x. Qed.

Lemma f32_mul_zero_not_finite (x : f32) :
  is_finite x = false → f32_mul f32_zero x = S754_nan.
Proof. rewrite f32_mul_zero. by destruct x. Qed.

Lemma slice_blocks_length {A} (n blk keep : nat) : ∀ d : list A,
  (n * blk ≤ length d)%nat → (keep ≤ blk)%nat →
  length (slice_blocks n blk keep d) = (n * keep)%nat.
Proof.
  induction n as [|n IH]; intros d Hd Hk; simpl; [done|].
  rewrite length_app, length_take, IH; [lia| |done].
  rewrite length_drop. lia.
Qed.

Lemma slice_blocks_lookup {A} (n blk keep : nat) : ∀ (d : list A) i p,
  (n * blk ≤ length d)%nat → (keep ≤ blk)%nat →
  (i < n)%nat → (p < keep)%nat →
  slice_blocks n blk keep d !! (i * keep + p)%nat = d !! (i * blk + p)%nat.
Proof.
  induction n as [|n IH]; intros d i p Hd Hk Hi Hp; [lia|]. simpl.
  assert (length (take keep d) = keep) as Hlen by (rewrite length_take; lia).
  destruct i as [|i].
  - simpl. rewrite lookup_app_l by lia. by rewrite lookup_take_lt.
  - rewrite lookup_app_r by lia. rewrite Hlen.
    replace (S i * keep + p - keep)%nat with (i * keep + p)%nat by lia.
    rewrite IH; [|rewrite length_drop; lia|done|lia|done].
    rewrite lookup_drop. f_equal. lia.
Qed.

Lemma slice_blocks_Forall {A} (P : A → Prop) (n blk keep : nat) : ∀ d : list A,
  Forall P d → Forall P (slice_blocks n blk keep d).
Proof.
  induction n as [|n IH]; intros d Hd; simpl; [done|].
  apply Forall_app. split; [by apply Forall_take|].
  by apply IH, Forall_drop.
Qed.

Lemma first_channel_4d (flow : tensor) (N C H W : nat) :
  shape flow = [N; S C; H; W] →
  first_channel flow
  = Ok (Tensor [N; 1%nat; H; W]
          (slice_blocks N (S C * H * W) (H * W) (data flow))).
Proof.
  intros Hs. unfold first_channel. rewrite Hs. simpl rev. cbv iota beta.
  simpl numel. simpl Nat.min. simpl app.
  by rewrite Nat.mul_1_r, Nat.mul_1_l.
Qed.

Lemma zero_times_first_channel (flow : tensor) (N C H W : nat) :
  shape flow = [N; S C; H; W] → tensor_wf flow →
  ∃ slice, first_channel flow = Ok slice ∧
    zeroed_first_channel N (S C) H W flow (zero_times slice) ∧
    Forall (λ y, is_zero y = true ∨ y = S754_nan) (data (zero_times slice)) ∧
    (Forall (λ x, is_finite x = true) (data flow) →
       everywhere_zero (zero_times slice)).
Proof.
  intros Hs Hwf. rewrite (first_channel_4d flow N C H W Hs).
  eexists. split; [reflexivity|].
  assert (length (data flow) = (N * (S C * H * W))%nat) as Hlen.
  { unfold tensor_wf in Hwf. rewrite Hwf, Hs. simpl. lia. }
  assert (H * W ≤ S C * H * W)%nat as Hk by nia.
  split; [split_and!|split].
  - done.
  - unfold tensor_wf, zero_times. simpl.
    rewrite length_map, slice_blocks_length; [lia| lia |done].
  - intros n p Hn Hp.
    destruct (lookup_lt_is_Some_2 (data flow) (n * (S C * H * W) + p)%nat)
      as [v Hv]; [nia|].
    exists v. split; [done|]. split.
    + unfold zero_times. cbn [data]. rewrite list_lookup_fmap.
      rewrite slice_blocks_lookup; [|lia|done..]. by rewrite Hv.
    + split; [apply f32_mul_zero_finite|apply f32_mul_zero_not_finite].
  - simpl. apply Forall_fmap, Forall_true. intros x. unfold compose.
    rewrite f32_mul_zero. destruct x; auto.
  - intros Hfin. unfold everywhere_zero. simpl.
    apply Forall_fmap. eapply Forall_impl.
    + by apply slice_blocks_Forall.
    + intros x. apply f32_mul_zero_finite.
Qed.

(** C4, amended: whenever the wrapped UNet returns a flow of shape
    N x C x H x W with at least one channel, [EVFlowNet.forward] returns a
    mapping with exactly the keys flow and image, where flow is the
    UNet's output unchanged and image, of shape N x 1 x H x W, is 0 times
    the first channel of the flow: zero at every position where the flow
    is finite, NaN where the flow is NaN or infinite.  The model and the
    heap are left as they were. *)
Theorem EVFlowNet_forward_flow_and_image
    (fW fF fR : rnet → heap → tensor → result (gmap string tensor * rnet * heap))
    (fN : fnet → tensor → result (gmap string tensor))
    (UNet_forward : fnet → tensor → result tensor)
    (nb ne : pyval) (unet : fnet) (a : option loc) (h : heap)
    (x flow : tensor) (N C H W : nat) :
  UNet_forward unet x = Ok flow →
  shape flow = [N; S C; H; W] →
  tensor_wf flow →
  ∃ img : tensor,
    forward fW fF fR fN UNet_forward (EVFlowNet nb ne unet a) h x
      = Ok (<["flow" := flow]> (<["image" := img]> ∅),
            EVFlowNet nb ne unet a, h) ∧
    dom (<["flow" := flow]> (<["image" := img]> (∅ : gmap string tensor)))
      = {[ "flow"; "image" ]} ∧
    zeroed_first_channel N (S C) H W flow img ∧
    Forall (λ y, is_zero y = true ∨ y = S754_nan) (data img) ∧
    (Forall (λ v, is_finite v = true) (data flow) → everywhere_zero img).
Proof.
  intros Hu Hs Hwf.
  destruct (zero_times_first_channel flow N C H W Hs Hwf)
    as (slice & E & Hz & Hzn & Hfin).
  exists (zero_times slice). split_and!; [| |done..].
  - unfold forward, EVFlowNet_forward. rewrite Hu.
    cbn [mbind result_bind]. by rewrite E.
  - rewrite !dom_insert_L, dom_empty_L. set_solver.
Qed.

Lemma EVFlowNet_forward_flow_and_image_witness :
  ∃ img : tensor,
    forward (λ _ _ _, Raise BadRef) (λ _ _ _, Raise BadRef)
      (λ _ _ _, Raise BadRef) (λ _ _, Raise BadRef) (λ _ _, Ok nan_flow)
      (EVFlowNet (PInt 5) (PInt 4) (FNet ∅) None) (Heap [] [])
      (Tensor [1; 5; 1; 2]%nat (replicate 10 S754_nan))
    = Ok (<["flow" := nan_flow]> (<["image" := img]> ∅),
          EVFlowNet (PInt 5) (PInt 4) (FNet ∅) None, Heap [] []) ∧
    zeroed_first_channel 1 2 1 2 nan_flow img.
Proof.
  destruct (EVFlowNet_forward_flow_and_image
              (λ _ _ _, Raise BadRef) (λ _ _ _, Raise BadRef)
              (λ _ _ _, Raise BadRef) (λ _ _, Raise BadRef) (λ _ _, Ok nan_flow)
              (PInt 5) (PInt 4) (FNet ∅) None (Heap [] [])
              (Tensor [1; 5; 1; 2]%nat (replicate 10 S754_nan))
              nan_flow 1%nat 1%nat 1%nat 2%nat eq_refl eq_refl eq_refl)
    as (img & E & _ & Hz & _).
  exists img. split; [exact E|exact Hz].
Defined.

(** C4 as stated fails where the flow is not finite: the image then
    holds a NaN. *)
Lemma EVFlowNet_image_counterexample :
  ∃ img : tensor,
    EVFlowNet_forward (λ _ _, Ok nan_flow) (FNet ∅)
      (Tensor [1; 5; 1; 2]%nat (replicate 10 S754_nan))
    = Ok (<["flow" := nan_flow]> (<["image" := img]> ∅)) ∧
    data img = [S754_nan; S754_zero false] ∧
    ¬ everywhere_zero img.
Proof.
  eexists. split; [reflexivity|]. split; [reflexivity|].
  intros Hz. inversion Hz as [|? ? H0 _]. discriminate H0.
Qed.

(** ** Shapes of the forward pass *)

Lemma output_ok_EVFlowNet (N H W : nat) (flow img : tensor) :
  shape flow = [N; 2%nat; H; W] → tensor_wf flow →
  shape img = [N; 1%nat; H; W] → tensor_wf img →
  output_ok N H W (<["flow" := flow]> (<["image" := img]> ∅)).
Proof.
  intros Hf Hfw Hi Hiw. split_and!.
  - apply insert_non_empty.
  - rewrite !dom_insert_L, dom_empty_L. unfold documented_keys. set_solver.
  - intros k y. rewrite lookup_insert. case_decide.
    + intros [= <-]. by exists 2%nat.
    + rewrite lookup_insert. case_decide; [|by rewrite lookup_empty].
      intros [= <-]. by exists 1%nat.
Qed.

(** C7: with wrapped networks that keep the batch and spatial dimensions
    of a shape-consistent N x num_bins x H x W input, [forward] of every
    variant returns a mapping whose keys are among image and flow and
    whose tensors have batch dimension N and spatial dimensions H x W;
    for [EVFlowNet] the flow is N x 2 x H x W and the placeholder image
    N x 1 x H x W. *)
Theorem forward_shapes
    (fW fF fR : rnet → heap → tensor → result (gmap string tensor * rnet * heap))
    (fN : fnet → tensor → result (gmap string tensor))
    (fU : fnet → tensor → result tensor)
    (m : model) (h : heap) (x : tensor) (nb N H W : nat) :
  model_num_bins m = PInt (Z.of_nat nb) →
  shape x = [N; nb; H; W] →
  tensor_wf x →
  recurrent_forward_contract nb fW →
  recurrent_forward_contract nb fF →
  recurrent_forward_contract nb fR →
  norecur_forward_contract nb fN →
  unet_forward_contract nb fU →
  forward_ok (forward fW fF fR fN fU m h x) m N H W.
Proof.
  intros _ Hx Hwf HW HF HR HN HU. unfold forward_ok.
  destruct m as [b e w|b e w|b e w a|b e w|b e w a]; simpl.
  - destruct (HW w h x N H W Hx Hwf) as (d & w' & h' & -> & Hd).
    eexists _, _, _. split; [reflexivity|]. split_and!; done.
  - destruct (HF w h x N H W Hx Hwf) as (d & w' & h' & -> & Hd).
    eexists _, _, _. split; [reflexivity|]. split_and!; done.
  - destruct (HN w x N H W Hx Hwf) as (d & -> & Hd).
    eexists _, _, _. split; [reflexivity|]. split_and!; done.
  - destruct (HR w h x N H W Hx Hwf) as (d & w' & h' & -> & Hd).
    eexists _, _, _. split; [reflexivity|]. split_and!; done.
  - destruct (HU w x N H W Hx Hwf) as (flow & Hu & Hs & Hfw).
    destruct (zero_times_first_channel flow N 1 H W Hs Hfw)
      as (slice & E & (Hi & Hiw & _) & _).
    unfold EVFlowNet_forward. rewrite Hu. cbn [mbind result_bind].
    rewrite E. cbn [mbind result_bind].
    eexists _, _, _. split; [reflexivity|]. split_and!.
    + by apply output_ok_EVFlowNet.
    + done.
    + intros ? ? ? ? _. exists flow, (zero_times slice).
      by rewrite lookup_insert_eq, lookup_insert_ne, lookup_insert_eq.
Qed.

Lemma zeros_wf (s : list nat) : tensor_wf (zeros s).
Proof. unfold tensor_wf, zeros. simpl. apply length_replicate. Qed.

Lemma zero_outputs_ok (x : tensor) (N C H W : nat) :
  shape x = [N; C; H; W] →
  ∃ d, zero_outputs x = Ok d ∧ output_ok N H W d.
Proof.
  intros Hx. unfold zero_outputs. rewrite Hx.
  eexists. split; [reflexivity|]. split_and!.
  - apply insert_non_empty.
  - rewrite !dom_insert_L, dom_empty_L. unfold documented_keys. set_solver.
  - intros k y. rewrite lookup_insert. case_decide.
    + intros [= <-]. exists 1%nat. split; [done|apply zeros_wf].
    + rewrite lookup_insert. case_decide; [|by rewrite lookup_empty].
      intros [= <-]. exists 2%nat. split; [done|apply zeros_wf].
Qed.

Lemma zero_rnet_contract (nb : nat) : recurrent_forward_contract nb zero_rnet.
Proof.
  intros n h x N H W Hx _. unfold zero_rnet.
  destruct (zero_outputs_ok x N nb H W Hx) as (d & -> & Hd).
  by exists d, n, h.
Qed.

Lemma zero_fnet_contract (nb : nat) : norecur_forward_contract nb zero_fnet.
Proof. intros n x N H W Hx _. by apply (zero_outputs_ok x N nb H W). Qed.

Lemma zero_unet_contract (nb : nat) : unet_forward_contract nb zero_unet.
Proof.
  intros n x N H W Hx _. unfold zero_unet. rewrite Hx.
  eexists. split; [reflexivity|]. split; [done|apply zeros_wf].
Qed.

Lemma forward_shapes_witness :
  forward_ok
    (forward zero_rnet zero_rnet zero_rnet zero_fnet zero_unet
       (EVFlowNet (PInt 5) (PInt 4) (FNet ∅) None) (Heap [] [])
       (zeros [3; 5; 4; 6]%nat))
    (EVFlowNet (PInt 5) (PInt 4) (FNet ∅) None) 3 4 6.
Proof.
  apply (forward_shapes zero_rnet zero_rnet zero_rnet zero_fnet zero_unet
           _ _ _ 5%nat 3%nat 4%nat 6%nat);
    [reflexivity|reflexivity|apply zeros_wf
    |apply zero_rnet_contract|apply zero_rnet_contract|apply zero_rnet_contract
    |apply zero_fnet_contract|apply zero_unet_contract].
Defined.

(** ** [EVFlowNet.__init__] and the caller's dictionary *)

(** C8: [EVFlowNet.__init__] updates the caller's [unet_kwargs]
    dictionary in place with nine hardcoded entries, among them
    num_encoders = 4 and num_output_channels = 2.  The constructed
    model's [num_encoders] is 4 whatever the caller supplied, the UNet is
    built from the updated dictionary, and (the UNet's constructor
    leaving these keys alone) the caller's dictionary afterwards holds
    the hardcoded value under each of the nine keys, so an original value
    that differed is gone. *)
Theorem EVFlowNet_init_overwrites
    (UNet : list (gmap string pyval) → loc
            → result (list (gmap string pyval) * fnet))
    (st st' : list (gmap string pyval)) (k : loc)
    (d : gmap string pyval) (nb : pyval) (u : fnet) :
  st !! k = Some d →
  d !! "num_bins" = Some nb →
  UNet (<[k := dict_update d EVFlowNet_kwargs]> st) k = Ok (st', u) →
  (∀ key, is_Some (EVFlowNet_kwargs !! key) →
     dict_at st' k key
     = dict_at (<[k := dict_update d EVFlowNet_kwargs]> st) k key) →
  size EVFlowNet_kwargs = 9%nat ∧
  EVFlowNet_kwargs !! "num_encoders" = Some (PInt 4) ∧
  EVFlowNet_kwargs !! "num_output_channels" = Some (PInt 2) ∧
  EVFlowNet_init UNet st k = Ok (EVFlowNet nb (PInt 4) u None, st') ∧
  model_num_encoders (EVFlowNet nb (PInt 4) u None) = PInt 4 ∧
  (∀ key v, EVFlowNet_kwargs !! key = Some v →
     dict_at st' k key = Some v ∧
     (d !! key ≠ Some v → dict_at st' k key ≠ dict_at st k key)).
Proof.
  intros Hk Hnb HU Hframe.
  pose proof (lookup_lt_Some _ _ _ Hk) as Hlt.
  assert (<[k := dict_update d EVFlowNet_kwargs]> st !! k
          = Some (dict_update d EVFlowNet_kwargs)) as Hk1
    by by apply list_lookup_insert_eq.
  split; [by vm_compute|]. split; [by vm_compute|]. split; [by vm_compute|].
  split; [|split; [done|]].
  - unfold EVFlowNet_init. rewrite Hk. cbn [of_option mbind result_bind].
    rewrite Hk1. cbn [of_option mbind result_bind].
    unfold dict_getitem, dict_update.
    rewrite (lookup_union_r EVFlowNet_kwargs d "num_bins") by by vm_compute.
    rewrite Hnb. cbn [of_option mbind result_bind].
    rewrite (lookup_union_Some_l EVFlowNet_kwargs d "num_encoders" (PInt 4))
      by by vm_compute.
    cbn [of_option mbind result_bind].
    unfold dict_update in HU. rewrite HU. done.
  - intros key v Hv.
    assert (dict_at st' k key = Some v) as Hnew.
    { rewrite Hframe by eauto. unfold dict_at. rewrite Hk1. simpl.
      unfold dict_update. by apply lookup_union_Some_l. }
    split; [done|]. intros Hd. rewrite Hnew. unfold dict_at. rewrite Hk.
    simpl. congruence.
Qed.

Lemma UNet_stub_frame (st : list (gmap string pyval)) (k : loc)
    (d : gmap string pyval) (key : string) :
  st !! k = Some d → key ≠ "final_activation" →
  dict_at (<[k := delete "final_activation" d]> st) k key = dict_at st k key.
Proof.
  intros Hk Hkey. unfold dict_at.
  rewrite list_lookup_insert_eq by by eapply lookup_lt_Some.
  rewrite Hk. simpl. by apply lookup_delete_ne.
Qed.

Lemma EVFlowNet_init_overwrites_witness :
  ∃ st' u,
    EVFlowNet_init UNet_stub [caller_kwargs] 0%nat
      = Ok (EVFlowNet (PInt 5) (PInt 4) u None, st') ∧
    dict_at [caller_kwargs] 0%nat "num_encoders" = Some (PInt 7) ∧
    dict_at st' 0%nat "num_encoders" = Some (PInt 4) ∧
    dict_at st' 0%nat "skip_type" = Some (PStr "concat").
Proof.
  destruct (EVFlowNet_init_overwrites UNet_stub [caller_kwargs]
              [delete "final_activation" (dict_update caller_kwargs EVFlowNet_kwargs)]
              0%nat caller_kwargs (PInt 5)
              (FNet (delete "final_activation"
                       (dict_update caller_kwargs EVFlowNet_kwargs)))
              eq_refl eq_refl eq_refl)
    as (_ & _ & _ & E & _ & Hd).
  - intros key [v Hv].
    apply (UNet_stub_frame [dict_update caller_kwargs EVFlowNet_kwargs] 0%nat
             (dict_update caller_kwargs EVFlowNet_kwargs) key eq_refl).
    intros ->. vm_compute in Hv. discriminate Hv.
  - eexists _, _. split; [exact E|]. split; [reflexivity|].
    split; [apply (Hd "num_encoders" (PInt 4)); reflexivity
           |apply (Hd "skip_type" (PStr "concat")); reflexivity].
Defined.

(** * Further properties of the state accessors *)

Lemma py_index_lt (n : nat) (i : Z) (j : nat) :
  py_index n i = Some j → (j < n)%nat.
Proof.
  unfold py_index. destruct (i <? 0) eqn:Hi;
    destruct (_ && _) eqn:Hc; intros [= <-];
    apply andb_true_iff in Hc as [H0%Z.leb_le H1%Z.ltb_lt]; lia.
Qed.

Lemma live_recurrent (m : model) (l : loc) : live m = Some l → recurrent m = true.
Proof. by destruct m. Qed.

Lemma live_set_states (m : model) (s : loc) :
  recurrent m = true →
  live (set_states m s) = Some s ∧ encoders (set_states m s) = encoders m ∧
  model_num_bins (set_states m s) = model_num_bins m ∧
  model_num_encoders (set_states m s) = model_num_encoders m.
Proof. by destruct m. Qed.

Lemma states_is_copy m h l e es :
  live m = Some l → lists h !! l = Some (e :: es) → states_ok h l = true →
  ∃ h' c, states m h = Ok (h', c) ∧ is_copy h l h' c.
Proof.
  intros Hm Hl Hok.
  destruct (copy_states_is_copy h l e es Hl Hok) as (h' & c & E & Hc).
  exists h', c. split; [|done]. unfold states.
  destruct m as [? ? n|? ? n|? ? n ?|? ? n|? ? n ?]; simpl in Hm;
    simplify_eq; exact E.
Qed.

(** Writing a tensor that a sequence does not mention, or assigning to an
    item of another list, leaves the sequence reading as before. *)
Lemma tensor_write_other h a t h2 l0 es0 :
  tensor_write h a t = Ok h2 → lists h !! l0 = Some es0 →
  a ∉ states_locs es0 → read_states h2 l0 = read_states h l0.
Proof.
  unfold tensor_write, deref_tensor. intros Hw Hl Ha.
  destruct (tensors h !! a); simpl in Hw; [|done]. simplify_eq.
  eapply read_states_agree; [done..|]. simpl. intros e b He Hb.
  apply list_lookup_insert_ne. intros ->. apply Ha.
  apply elem_of_states_locs. eauto.
Qed.

Lemma list_setitem_other h l1 i e h2 l0 :
  list_setitem h l1 i e = Ok h2 → l0 ≠ l1 →
  read_states h2 l0 = read_states h l0.
Proof.
  unfold list_setitem, deref_list. intros Hw Hne.
  destruct (lists h !! l1) as [es1|]; simpl in Hw; [|done].
  destruct (py_index _ i); simpl in Hw; [|done]. simplify_eq.
  unfold read_states. simpl. rewrite list_lookup_insert_ne by done.
  destruct (lists h !! l0); simpl; [|done]. by apply mapM_read_agree.
Qed.

Lemma states_ok_locs_lt h l es a :
  states_ok h l = true → lists h !! l = Some es →
  a ∈ states_locs es → (a < length (tensors h))%nat.
Proof.
  intros Hok Hl (e & He & Ha)%elem_of_states_locs.
  by eapply states_ok_locs.
Qed.

(** A copy keeps everything that was there. *)
Lemma is_copy_preserves h l h' c l0 :
  is_copy h l h' c → states_ok h l0 = true →
  lists h' !! l0 = lists h !! l0 ∧ states_ok h' l0 = true ∧
  read_states h' l0 = read_states h l0.
Proof.
  intros (es & es' & Hl & -> & HL & HP & HF) Hok.
  destruct (lists h !! l0) as [es0|] eqn:Hl0;
    [|unfold states_ok in Hok; by rewrite Hl0 in Hok].
  assert (lists h' !! l0 = Some es0) as Hl0'.
  { rewrite HL. rewrite lookup_app_l; [done|by eapply lookup_lt_Some]. }
  split; [done|]. split.
  - unfold states_ok in *. rewrite Hl0' . rewrite Hl0 in Hok.
    apply forallb_forall. intros e0 He0. apply forallb_forall. intros a Ha.
    rewrite forallb_forall in Hok. specialize (Hok e0 He0).
    unfold entry_ok in Hok. rewrite forallb_forall in Hok.
    specialize (Hok a Ha). apply Nat.ltb_lt in Hok. apply Nat.ltb_lt.
    apply prefix_length in HP. lia.
  - eapply read_states_agree; [done..|]. intros e0 a He0 Ha.
    pose proof (states_ok_locs h l0 es0 Hok Hl0 e0 a He0 Ha) as Hlt.
    destruct (lookup_lt_is_Some_2 _ _ Hlt) as [t Ht]. rewrite Ht.
    by eapply prefix_lookup_Some.
Qed.

(** X1: [reset_states] of a recurrent wrapper binds the state to a new
    list object instead of clearing the current one: after
    [m.states = s; m.reset_states()] the list [s] the caller gave is as it
    was and is no longer the live sequence; no tensor changes and the
    wrapper keeps its encoder count and legacy fields. *)
Theorem reset_states_rebinds
    (m : model) (h : heap) (s : loc) (es : list entry) :
  recurrent m = true →
  lists h !! s = Some es →
  ∃ m' h',
    reset_states (set_states m s) h = Ok (m', h') ∧
    live m' = Some (length (lists h)) ∧ live m' ≠ Some s ∧
    lists h !! length (lists h) = None ∧
    lists h' !! s = Some es ∧ tensors h' = tensors h ∧
    read_states h' s = read_states h s ∧
    encoders m' = encoders m ∧
    model_num_bins m' = model_num_bins m ∧
    model_num_encoders m' = model_num_encoders m.
Proof.
  intros Hm Hs. pose proof (lookup_lt_Some _ _ _ Hs) as Hlt.
  assert (∀ h' : heap, lists h' !! s = Some es → tensors h' = tensors h →
            read_states h' s = read_states h s) as Hread.
  { intros h' H1 H2. eapply read_states_agree; [done..|].
    intros. by rewrite H2. }
  destruct m as [b e w|b e w|b e w a|b e w|b e w a]; try done; simpl;
    (eexists _, _; split; [reflexivity|]; simpl;
     assert ((lists h ++ [replicate (Z.to_nat (r_num_encoders w)) Absent]) !! s
             = Some es) as Hs' by (by rewrite lookup_app_l);
     split_and!; try done;
     [intros [= ?]; lia|by apply lookup_ge_None|by apply Hread]).
Qed.

Lemma reset_states_rebinds_witness :
  ∃ m' h',
    reset_states (set_states (WFlowNet (PInt 5) (PInt 2) (RNet 2 0)) 1%nat)
      (Heap [Tensor [1]%nat [S754_nan]] [[Absent; Absent]; [Gru 0%nat; Gru 0%nat]])
    = Ok (m', h') ∧
    live m' = Some 2%nat ∧
    lists h' !! 1%nat = Some [Gru 0%nat; Gru 0%nat].
Proof.
  destruct (reset_states_rebinds (WFlowNet (PInt 5) (PInt 2) (RNet 2 0))
              (Heap [Tensor [1]%nat [S754_nan]]
                    [[Absent; Absent]; [Gru 0%nat; Gru 0%nat]])
              1%nat [Gru 0%nat; Gru 0%nat] eq_refl eq_refl)
    as (m' & h' & E & L & _ & _ & Hl & _).
  exists m', h'. split; [exact E|]. split; [exact L|exact Hl].
Defined.

(** X2: on a recurrent wrapper whose wrapped network has an encoder count
    of zero or less, [reset_states] makes the live sequence an empty
    list, and reading [states] after it raises [IndexError], whatever
    [recursive_clone] is. *)
Theorem reset_then_states_raises
    (rc : heap → loc → result (heap * loc)) (m : model) (h : heap) (n : Z) :
  encoders m = Some n →
  n ≤ 0 →
  ∃ m' h',
    reset_states m h = Ok (m', h') ∧
    live m' = Some (length (lists h)) ∧
    lists h' !! length (lists h) = Some [] ∧
    get_states rc m' h' = Raise IndexError.
Proof.
  intros Hm Hn.
  assert (Z.to_nat n = 0%nat) as Hz by lia.
  set (h' := Heap (tensors h) (lists h ++ [[]])).
  assert (lists h' !! length (lists h) = Some []) as Hl
    by by apply list_lookup_middle.
  assert (copy_states rc h' (length (lists h)) = Raise IndexError) as Hc.
  { unfold copy_states, deref_list. rewrite Hl.
    cbn [of_option mbind result_bind]. by rewrite list_getitem_nil. }
  destruct m as [b e w|b e w|b e w a|b e w|b e w a]; simpl in Hm; simplify_eq;
    (eexists _, h'; unfold reset_states, none_list; rewrite Hz;
     split; [reflexivity|]; split; [done|]; split; [done|exact Hc]).
Qed.

Lemma reset_then_states_raises_witness :
  ∃ m' h',
    reset_states (FlowNet (PInt 5) (PInt (-1)) (RNet (-1) 0))
      (Heap [] [[Absent]]) = Ok (m', h') ∧
    get_states recursive_clone m' h' = Raise IndexError.
Proof.
  destruct (reset_then_states_raises recursive_clone
              (FlowNet (PInt 5) (PInt (-1)) (RNet (-1) 0)) (Heap [] [[Absent]])
              (-1) eq_refl) as (m' & h' & E & _ & _ & R); [lia|].
  exists m', h'. split; [exact E|exact R].
Defined.

(** X3: the [states] setter keeps the caller's list object itself, not a
    copy of it: an item the caller assigns in that list afterwards is part
    of the live state, and the getter returns the updated sequence. *)
Theorem setter_keeps_callers_list
    (m : model) (h : heap) (s : loc) (es : list entry)
    (i : Z) (j : nat) (e : entry) :
  recurrent m = true →
  lists h !! s = Some es →
  states_ok h s = true →
  py_index (length es) i = Some j →
  entry_ok h e = true →
  ∃ h1,
    list_setitem h s i e = Ok h1 ∧
    live (set_states m s) = Some s ∧
    lists h1 !! s = Some (<[j := e]> es) ∧
    ∃ h2 c,
      states (set_states m s) h1 = Ok (h2, c) ∧
      read_states h2 c = mapM (read_entry h) (<[j := e]> es).
Proof.
  intros Hm Hs Hok Hi He.
  pose proof (lookup_lt_Some _ _ _ Hs) as Hlt.
  pose proof (py_index_lt _ _ _ Hi) as Hj.
  set (h1 := Heap (tensors h) (<[s := <[j := e]> es]> (lists h))).
  assert (lists h1 !! s = Some (<[j := e]> es)) as Hs1
    by by apply list_lookup_insert_eq.
  exists h1. split.
  { unfold list_setitem, deref_list. rewrite Hs.
    cbn [of_option mbind result_bind]. by rewrite Hi. }
  destruct (live_set_states m s Hm) as (L & _). split; [done|].
  split; [done|].
  assert (states_ok h1 s = true) as Hok1.
  { unfold states_ok in *. rewrite Hs1. rewrite Hs in Hok.
    rewrite forallb_forall in Hok. apply forallb_forall.
    intros e0 [k Hk]%list_elem_of_In%list_elem_of_lookup.
    destruct (decide (k = j)) as [->|Hne].
    - rewrite list_lookup_insert_eq in Hk by done. by simplify_eq.
    - rewrite list_lookup_insert_ne in Hk by done.
      apply (Hok e0). eapply list_elem_of_In, list_elem_of_lookup_2, Hk. }
  destruct (<[j := e]> es) as [|e1 es1] eqn:Hins.
  { apply (f_equal length) in Hins. rewrite length_insert in Hins.
    simpl in Hins. lia. }
  destruct (states_after_set _ _ _ _ _ L Hs1 Hok1) as (h2 & c & E & I).
  exists h2, c. split; [done|].
  destruct I as (_ & -> & _). unfold read_states. by rewrite Hs1.
Qed.

Lemma setter_keeps_callers_list_witness :
  ∃ h1 h2 c,
    list_setitem (Heap [Tensor [1]%nat [S754_zero false]] [[Absent]; [Absent; Absent]])
      1%nat (-1) (Gru 0%nat) = Ok h1 ∧
    states (set_states (E2VIDRecurrent (PInt 5) (PInt 2) (RNet 2 0)) 1%nat) h1
      = Ok (h2, c) ∧
    read_states h2 c = Some [VAbsent; VGru (Tensor [1]%nat [S754_zero false])].
Proof.
  destruct (setter_keeps_callers_list
              (E2VIDRecurrent (PInt 5) (PInt 2) (RNet 2 0))
              (Heap [Tensor [1]%nat [S754_zero false]] [[Absent]; [Absent; Absent]])
              1%nat [Absent; Absent] (-1) 1%nat (Gru 0%nat)
              eq_refl eq_refl eq_refl eq_refl eq_refl)
    as (h1 & E1 & _ & _ & h2 & c & E2 & R).
  exists h1, h2, c. split; [exact E1|]. split; [exact E2|].
  rewrite R. reflexivity.
Defined.

(** X4: a sequence read through the [states] getter is a snapshot: later
    in-place updates of any tensor or list that existed when it was
    taken, the live ones included, leave it reading as the live state did
    then, and assigning it back makes it the live state. *)
Theorem snapshot_survives_live_updates
    (m : model) (h : heap) (l : loc) (e : entry) (es : list entry) :
  live m = Some l →
  lists h !! l = Some (e :: es) →
  states_ok h l = true →
  ∃ h' c,
    states m h = Ok (h', c) ∧
    (∀ a t h2, (a < length (tensors h))%nat →
       tensor_write h' a t = Ok h2 → read_states h2 c = read_states h l) ∧
    (∀ l0 i e0 h2, (l0 < length (lists h))%nat →
       list_setitem h' l0 i e0 = Ok h2 → read_states h2 c = read_states h l) ∧
    live (set_states m c) = Some c.
Proof.
  intros Hm Hl Hok.
  destruct (states_is_copy m h l e es Hm Hl Hok) as (h' & c & E & Hc).
  exists h', c. split; [done|].
  pose proof (is_copy_independent _ _ _ _ Hc) as (_ & Hr & _).
  destruct Hc as (es0 & es' & Hl0 & -> & HL & HP & HF).
  assert (lists h' !! length (lists h) = Some es') as Hc'.
  { rewrite HL. by apply list_lookup_middle. }
  split_and!.
  - intros a t h2 Ha Hw. rewrite <- Hr.
    eapply tensor_write_other; [done..|].
    intros (e' & He' & Ha')%elem_of_states_locs.
    pose proof (copies_new _ _ _ _ _ _ HF He' Ha'). lia.
  - intros l0 i e0 h2 Hl0' Hw. rewrite <- Hr.
    eapply list_setitem_other; [done|lia].
  - by apply live_set_states, (live_recurrent m l).
Qed.

Lemma snapshot_survives_live_updates_witness :
  ∃ h' c h2,
    states (FlowNet (PInt 5) (PInt 1) (RNet 1 0))
      (Heap [Tensor [1]%nat [S754_zero false]] [[Gru 0%nat]]) = Ok (h', c) ∧
    tensor_write h' 0%nat (Tensor [1]%nat [S754_nan]) = Ok h2 ∧
    read_states h2 0%nat = Some [VGru (Tensor [1]%nat [S754_nan])] ∧
    read_states h2 c = Some [VGru (Tensor [1]%nat [S754_zero false])].
Proof.
  destruct (snapshot_survives_live_updates
              (FlowNet (PInt 5) (PInt 1) (RNet 1 0))
              (Heap [Tensor [1]%nat [S754_zero false]] [[Gru 0%nat]])
              0%nat (Gru 0%nat) [] eq_refl eq_refl eq_refl)
    as (h' & c & E & Hw & _ & _).
  injection E as <- <-.
  eexists _, _, _. split; [reflexivity|]. split; [reflexivity|].
  split; [reflexivity|].
  apply (Hw 0%nat (Tensor [1]%nat [S754_nan])); [simpl; lia|reflexivity].
Defined.

(** X5: reading [states] changes nothing that exists: the heap it leaves
    is the old one with one list object added, as long as the live
    sequence, and some tensors added; every sequence of the old heap, the
    live one included, reads as before. *)
Theorem getter_only_allocates
    (m : model) (h : heap) (l : loc) (e : entry) (es : list entry) :
  live m = Some l →
  lists h !! l = Some (e :: es) →
  states_ok h l = true →
  ∃ h' c es',
    states m h = Ok (h', c) ∧
    c = length (lists h) ∧
    lists h' = lists h ++ [es'] ∧
    length es' = length (e :: es) ∧
    tensors h `prefix_of` tensors h' ∧
    ∀ l0, states_ok h l0 = true →
      lists h' !! l0 = lists h !! l0 ∧ read_states h' l0 = read_states h l0.
Proof.
  intros Hm Hl Hok.
  destruct (states_is_copy m h l e es Hm Hl Hok) as (h' & c & E & Hc).
  pose proof Hc as (es0 & es' & Hl0 & -> & HL & HP & HF).
  exists h', (length (lists h)), es'. split_and!; try done.
  - rewrite Hl in Hl0. simplify_eq. symmetry. by eapply Forall2_length.
  - intros l0 Hl0ok.
    destruct (is_copy_preserves _ _ _ _ l0 Hc Hl0ok) as (? & _ & ?). done.
Qed.

Lemma getter_only_allocates_witness :
  ∃ h' es',
    states (WFlowNet (PInt 5) (PInt 2) (RNet 2 1))
      (Heap [Tensor [1]%nat [S754_nan]] [[Gru 0%nat]; [Absent; Gru 0%nat]])
    = Ok (h', 2%nat) ∧
    lists h' = [[Gru 0%nat]; [Absent; Gru 0%nat]] ++ [es'] ∧
    read_states h' 0%nat = Some [VGru (Tensor [1]%nat [S754_nan])].
Proof.
  destruct (getter_only_allocates
              (WFlowNet (PInt 5) (PInt 2) (RNet 2 1))
              (Heap [Tensor [1]%nat [S754_nan]] [[Gru 0%nat]; [Absent; Gru 0%nat]])
              1%nat Absent [Gru 0%nat] eq_refl eq_refl eq_refl)
    as (h' & c & es' & E & -> & HL & _ & _ & Hold).
  exists h', es'. split; [exact E|]. split; [exact HL|].
  destruct (Hold 0%nat eq_refl) as [_ ->]. reflexivity.
Defined.

(** X6: two successive reads of [states] give two snapshots that are
    independent of each other as well: different list objects over
    disjoint tensors, both reading as the live state, and an in-place
    update of a tensor of the first changes neither the second nor the
    live state. *)
Theorem snapshots_are_independent
    (m : model) (h : heap) (l : loc) (e : entry) (es : list entry) :
  live m = Some l →
  lists h !! l = Some (e :: es) →
  states_ok h l = true →
  ∃ h1 c1 h2 c2 es1 es2,
    states m h = Ok (h1, c1) ∧ states m h1 = Ok (h2, c2) ∧
    c1 ≠ c2 ∧
    lists h2 !! c1 = Some es1 ∧ lists h2 !! c2 = Some es2 ∧
    read_states h2 c1 = read_states h l ∧
    read_states h2 c2 = read_states h l ∧
    (∀ a, a ∈ states_locs es1 → a ∉ states_locs es2) ∧
    (∀ a t, a ∈ states_locs es1 →
       ∃ h3, tensor_write h2 a t = Ok h3 ∧
             read_states h3 c2 = read_states h l ∧
             read_states h3 l = read_states h l).
Proof.
  intros Hm Hl Hok.
  destruct (states_is_copy m h l e es Hm Hl Hok) as (h1 & c1 & E1 & C1).
  pose proof (is_copy_independent _ _ _ _ C1)
    as (_ & R1 & R1l & _ & N1 & Ok1 & K1 & _).
  destruct (is_copy_preserves _ _ _ _ l C1 Hok) as (Hl1 & Hok1 & _).
  rewrite Hl in Hl1.
  destruct (states_is_copy m h1 l e es Hm Hl1 Hok1) as (h2 & c2 & E2 & C2).
  pose proof (is_copy_independent _ _ _ _ C2)
    as (_ & R2 & R2l & _ & N2 & Ok2 & K2 & _ & W2).
  destruct (is_copy_preserves _ _ _ _ c1 C2 Ok1) as (Hc1 & _ & Rc1).
  destruct (is_copy_preserves _ _ _ _ l C2 Hok1) as (Hl2 & _ & _).
  destruct (lists h1 !! c1) as [es1|] eqn:Hes1;
    [|unfold states_ok in Ok1; by rewrite Hes1 in Ok1].
  destruct (lists h2 !! c2) as [es2|] eqn:Hes2;
    [|unfold states_ok in Ok2; by rewrite Hes2 in Ok2].
  destruct (K2 _ _ Hl1 eq_refl) as [_ F2].
  destruct (K1 _ _ Hl eq_refl) as [_ F1].
  assert (∀ a, a ∈ states_locs es1 → a ∉ states_locs es2) as Hdisj.
  { intros a Ha1 Ha2. destruct (F2 a Ha2) as [Hnone _].
    pose proof (states_ok_locs_lt h1 c1 es1 a Ok1 Hes1 Ha1) as Hlt.
    apply lookup_ge_None in Hnone. lia. }
  exists h1, c1, h2, c2, es1, es2. split_and!; try done.
  - intros ->. rewrite Hes1 in N2. done.
  - by rewrite Rc1.
  - by rewrite R2, R1l.
  - intros a t Ha.
    assert (is_Some (tensors h2 !! a)) as [u Hu].
    { apply lookup_lt_is_Some_2.
      pose proof (states_ok_locs_lt h1 c1 es1 a Ok1 Hes1 Ha) as Hlt.
      destruct C2 as (? & ? & _ & _ & _ & HP%prefix_length & _). lia. }
    assert (tensor_write h2 a t
            = Ok (Heap (<[a := t]> (tensors h2)) (lists h2))) as Hw.
    { unfold tensor_write, deref_tensor. by rewrite Hu. }
    eexists. split; [exact Hw|]. split.
    + rewrite (tensor_write_other _ _ _ _ c2 es2 Hw Hes2); [|by apply Hdisj].
      by rewrite R2, R1l.
    + rewrite Hl1 in Hl2.
      rewrite (tensor_write_other _ _ _ _ l (e :: es) Hw Hl2).
      * by rewrite R2l, R1l.
      * intros Hal. by destruct (F1 a Ha) as [_ Hn].
Qed.

Lemma snapshots_are_independent_witness :
  ∃ h1 c1 h2 c2,
    states (FlowNet (PInt 5) (PInt 1) (RNet 1 0))
      (Heap [Tensor [1]%nat [S754_zero false]] [[Lstm 0%nat 0%nat]]) = Ok (h1, c1) ∧
    states (FlowNet (PInt 5) (PInt 1) (RNet 1 0)) h1 = Ok (h2, c2) ∧
    c1 ≠ c2 ∧
    read_states h2 c1 = read_states h2 c2.
Proof.
  destruct (snapshots_are_independent
              (FlowNet (PInt 5) (PInt 1) (RNet 1 0))
              (Heap [Tensor [1]%nat [S754_zero false]] [[Lstm 0%nat 0%nat]])
              0%nat (Lstm 0%nat 0%nat) [] eq_refl eq_refl eq_refl)
    as (h1 & c1 & h2 & c2 & es1 & es2 & E1 & E2 & Hne & _ & _ & R1 & R2 & _).
  exists h1, c1, h2, c2. split; [exact E1|]. split; [exact E2|].
  split; [exact Hne|]. by rewrite R1, R2.
Defined.

(** ** Sharing under [copy.deepcopy] *)

Lemma result_bind_Ok {A B} (r : result A) (f : A → result B) (b : B) :
  r ≫= f = Ok b → ∃ a, r = Ok a ∧ f a = Ok b.
Proof. destruct r as [a|x]; [eauto|discriminate]. Qed.

Lemma renamed_weaken (m m' : gmap loc loc) (e e' : entry) :
  m ⊆ m' → renamed m e e' → renamed m' e e'.
Proof.
  intros Hsub. destruct e, e'; simpl; try done.
  - intros H. by eapply lookup_weaken.
  - intros [??]. split; by eapply lookup_weaken.
Qed.

Lemma deepcopy_tensor_memo h m a h' m' a' :
  deepcopy_tensor h m a = Ok (h', m', a') → m ⊆ m' ∧ m' !! a = Some a'.
Proof.
  unfold deepcopy_tensor. destruct (m !! a) as [b|] eqn:Hma.
  - intros [= <- <- <-]. done.
  - intros (t & _ & H)%result_bind_Ok. simpl in H. simplify_eq.
    split; [by apply insert_subseteq|by apply lookup_insert_eq].
Qed.

Lemma deepcopy_entry_memo h m e h' m' e' :
  deepcopy_entry h m e = Ok (h', m', e') → m ⊆ m' ∧ renamed m' e e'.
Proof.
  destruct e as [|a|a b]; simpl.
  - intros [= <- <- <-]. done.
  - intros ([[h1 m1] a1] & H1 & H)%result_bind_Ok. simpl in H. simplify_eq.
    by apply deepcopy_tensor_memo in H1.
  - intros ([[h1 m1] a1] & H1 & H)%result_bind_Ok.
    apply result_bind_Ok in H as ([[h2 m2] b2] & H2 & H). simpl in H.
    simplify_eq.
    apply deepcopy_tensor_memo in H1 as [S1 L1].
    apply deepcopy_tensor_memo in H2 as [S2 L2].
    split; [by etrans|]. simpl. split; [by eapply lookup_weaken|done].
Qed.

Lemma deepcopy_entries_memo es : ∀ h m h' m' es',
  deepcopy_entries h m es = Ok (h', m', es') →
  m ⊆ m' ∧ Forall2 (renamed m') es es'.
Proof.
  induction es as [|e es IH]; intros h m h' m' es'; simpl.
  - intros [= <- <- <-]. done.
  - intros ([[h1 m1] e1] & H1 & H)%result_bind_Ok.
    apply result_bind_Ok in H as ([[h2 m2] es2] & H2 & H). simpl in H.
    simplify_eq.
    apply deepcopy_entry_memo in H1 as [S1 R1].
    apply IH in H2 as [S2 R2].
    split; [by etrans|]. constructor; [by eapply renamed_weaken|done].
Qed.

Lemma renamed_functional (m : gmap loc loc) (e e1 e2 : entry) :
  renamed m e e1 → renamed m e e2 → e1 = e2.
Proof.
  destruct e, e1, e2; simpl; try done.
  - congruence.
  - intros [??] [??]. congruence.
Qed.

(** X7: a sequence whose first entry is None is copied by one
    [copy.deepcopy] call, which copies each tensor once: the entries of
    the copy are the entries of the original under one renaming of the
    tensor locations, so entries that held the same tensors hold the same
    copies. *)
Theorem deepcopy_keeps_sharing
    (rc : heap → loc → result (heap * loc))
    (h : heap) (l : loc) (es : list entry) :
  lists h !! l = Some (Absent :: es) →
  states_ok h l = true →
  ∃ h' c es' (m : gmap loc loc),
    copy_states rc h l = Ok (h', c) ∧
    lists h' !! c = Some es' ∧
    Forall2 (renamed m) (Absent :: es) es' ∧
    ∀ i j e, (Absent :: es) !! i = Some e → (Absent :: es) !! j = Some e →
      es' !! i = es' !! j.
Proof.
  intros Hl Hok. rewrite (copy_states_first _ _ _ _ _ Hl). simpl is_absent.
  cbv iota.
  destruct (deepcopy_is_copy h l Hok) as (h' & c & E & Hc).
  pose proof E as E'. unfold deepcopy, deref_list in E'. rewrite Hl in E'.
  cbn [of_option mbind result_bind] in E'.
  apply result_bind_Ok in E' as ([[h1 m1] es1] & H1 & H2).
  simpl in H2. simplify_eq.
  apply deepcopy_entries_memo in H1 as [_ HR].
  exists (Heap (tensors h1) (lists h1 ++ [es1])), (length (lists h1)), es1, m1.
  split; [done|]. split; [by apply list_lookup_middle|]. split; [done|].
  intros i j e Hi Hj.
  destruct (Forall2_lookup_l _ _ _ _ _ HR Hi) as (e1 & -> & R1).
  destruct (Forall2_lookup_l _ _ _ _ _ HR Hj) as (e2 & -> & R2).
  f_equal. by eapply renamed_functional.
Qed.

Lemma deepcopy_keeps_sharing_witness :
  ∃ h' c,
    copy_states recursive_clone
      (Heap [Tensor [1]%nat [S754_nan]] [[Absent; Gru 0%nat; Gru 0%nat]]) 0%nat
    = Ok (h', c) ∧
    lists h' !! c = Some [Absent; Gru 1%nat; Gru 1%nat].
Proof.
  destruct (deepcopy_keeps_sharing recursive_clone
              (Heap [Tensor [1]%nat [S754_nan]] [[Absent; Gru 0%nat; Gru 0%nat]])
              0%nat [Gru 0%nat; Gru 0%nat] eq_refl eq_refl)
    as (h' & c & es' & m & E & Hl & _ & _).
  injection E as <- <-.
  eexists _, _. split; reflexivity.
Defined.

(** * Further properties of the constructors *)

(** X8: the constructors of [WFlowNet], [FlowNet], [FlowNetNoRecur] and
    [E2VIDRecurrent] read num_bins and num_encoders from the caller's
    dictionary before they build the wrapped network: when either key is
    missing they raise [KeyError] and the wrapped constructor is not run;
    otherwise they hand the dictionary over as it is and the model holds
    the two values exactly as the dictionary gave them. *)
Theorem wrapper_init_reads_both_keys
    (WNet UNetFlow UNetRecurrent
       : list (gmap string pyval) → heap → loc
         → result (list (gmap string pyval) * heap * rnet))
    (UNetFlowNoRecur
       : list (gmap string pyval) → loc
         → result (list (gmap string pyval) * fnet))
    (st : list (gmap string pyval)) (h : heap) (k : loc)
    (d : gmap string pyval) :
  st !! k = Some d →
  (d !! "num_bins" = None ∨ d !! "num_encoders" = None →
     WFlowNet_init WNet st h k = Raise KeyError ∧
     FlowNet_init UNetFlow st h k = Raise KeyError ∧
     FlowNetNoRecur_init UNetFlowNoRecur st k = Raise KeyError ∧
     E2VIDRecurrent_init UNetRecurrent st h k = Raise KeyError) ∧
  (∀ nb ne, d !! "num_bins" = Some nb → d !! "num_encoders" = Some ne →
     WFlowNet_init WNet st h k
       = ('(st', h', n) ← WNet st h k; Ok (WFlowNet nb ne n, st', h')) ∧
     FlowNet_init UNetFlow st h k
       = ('(st', h', n) ← UNetFlow st h k; Ok (FlowNet nb ne n, st', h')) ∧
     FlowNetNoRecur_init UNetFlowNoRecur st k
       = ('(st', n) ← UNetFlowNoRecur st k;
          Ok (FlowNetNoRecur nb ne n None, st')) ∧
     E2VIDRecurrent_init UNetRecurrent st h k
       = ('(st', h', n) ← UNetRecurrent st h k;
          Ok (E2VIDRecurrent nb ne n, st', h'))).
Proof.
  intros Hk. split.
  - intros Hmiss.
    unfold WFlowNet_init, FlowNet_init, FlowNetNoRecur_init,
      E2VIDRecurrent_init, dict_getitem.
    rewrite Hk. cbn [of_option mbind result_bind].
    destruct Hmiss as [-> | Hne].
    + done.
    + rewrite Hne. by destruct (d !! "num_bins").
  - intros nb ne Hnb Hne.
    unfold WFlowNet_init, FlowNet_init, FlowNetNoRecur_init,
      E2VIDRecurrent_init, dict_getitem.
    rewrite Hk. cbn [of_option mbind result_bind].
    rewrite Hnb. cbn [of_option mbind result_bind].
    rewrite Hne. done.
Qed.

Lemma wrapper_init_reads_both_keys_witness :
  WFlowNet_init rnet_stub [{[ "num_bins" := PInt 5 ]}] (Heap [] []) 0%nat
    = Raise KeyError ∧
  FlowNetNoRecur_init fnet_stub [caller_kwargs] 0%nat
    = Ok (FlowNetNoRecur (PInt 5) (PInt 7) (FNet caller_kwargs) None,
          [caller_kwargs]).
Proof.
  split.
  - destruct (wrapper_init_reads_both_keys rnet_stub rnet_stub rnet_stub
                fnet_stub [{[ "num_bins" := PInt 5 ]}] (Heap [] []) 0%nat
                {[ "num_bins" := PInt 5 ]} eq_refl) as [Hmiss _].
    destruct Hmiss as (E & _); [right; reflexivity|exact E].
  - destruct (wrapper_init_reads_both_keys rnet_stub rnet_stub rnet_stub
                fnet_stub [caller_kwargs] (Heap [] []) 0%nat
                caller_kwargs eq_refl) as [_ Hboth].
    destruct (Hboth (PInt 5) (PInt 7) eq_refl eq_refl) as (_ & _ & E & _).
    rewrite E. reflexivity.
Defined.

Lemma EVFlowNet_kwargs_no_num_bins : EVFlowNet_kwargs !! "num_bins" = None.
Proof. by vm_compute. Qed.

Lemma EVFlowNet_init_unfold
    (UNet : list (gmap string pyval) → loc
            → result (list (gmap string pyval) * fnet))
    (st : list (gmap string pyval)) (k : loc) (d : gmap string pyval) :
  st !! k = Some d →
  EVFlowNet_init UNet st k =
  (num_bins ← dict_getitem d "num_bins";
   '(st2, unet) ← UNet (<[k := dict_update d EVFlowNet_kwargs]> st) k;
   Ok (EVFlowNet num_bins (PInt 4) unet None, st2)).
Proof.
  intros Hk. pose proof (lookup_lt_Some _ _ _ Hk) as Hlt.
  unfold EVFlowNet_init. rewrite Hk. cbn [of_option mbind result_bind].
  rewrite list_lookup_insert_eq by done. cbn [of_option mbind result_bind].
  unfold dict_getitem, dict_update.
  rewrite (lookup_union_r EVFlowNet_kwargs d "num_bins")
    by apply EVFlowNet_kwargs_no_num_bins.
  destruct (d !! "num_bins") as [nb|]; cbn [of_option mbind result_bind];
    [|done].
  rewrite (lookup_union_Some_l EVFlowNet_kwargs d "num_encoders" (PInt 4))
    by by vm_compute.
  done.
Qed.

(** X9: the only key [EVFlowNet.__init__] needs from the caller is
    num_bins: without it the constructor raises [KeyError] and no UNet is
    built; with it the constructor never raises [KeyError], whether or
    not the caller gave num_encoders, and an exception of the UNet's
    constructor is passed on. *)
Theorem EVFlowNet_init_needs_num_bins_only
    (UNet : list (gmap string pyval) → loc
            → result (list (gmap string pyval) * fnet))
    (st : list (gmap string pyval)) (k : loc) (d : gmap string pyval) :
  st !! k = Some d →
  (d !! "num_bins" = None → EVFlowNet_init UNet st k = Raise KeyError) ∧
  (∀ nb, d !! "num_bins" = Some nb →
     (∀ st' u, UNet (<[k := dict_update d EVFlowNet_kwargs]> st) k = Ok (st', u) →
        EVFlowNet_init UNet st k = Ok (EVFlowNet nb (PInt 4) u None, st')) ∧
     (∀ x, UNet (<[k := dict_update d EVFlowNet_kwargs]> st) k = Raise x →
        EVFlowNet_init UNet st k = Raise x)).
Proof.
  intros Hk. rewrite (EVFlowNet_init_unfold UNet st k d Hk).
  unfold dict_getitem. split.
  - by intros ->.
  - intros nb ->. cbn [of_option mbind result_bind].
    split; [intros st' u ->|intros x ->]; done.
Qed.

Lemma EVFlowNet_init_needs_num_bins_only_witness :
  EVFlowNet_init UNet_stub [{[ "num_encoders" := PInt 7 ]}] 0%nat
    = Raise KeyError ∧
  ∃ u st',
    EVFlowNet_init UNet_stub [{[ "num_bins" := PInt 5 ]}] 0%nat
      = Ok (EVFlowNet (PInt 5) (PInt 4) u None, st') ∧
    WFlowNet_init rnet_stub [{[ "num_bins" := PInt 5 ]}] (Heap [] []) 0%nat
      = Raise KeyError.
Proof.
  split.
  - destruct (EVFlowNet_init_needs_num_bins_only UNet_stub
                [{[ "num_encoders" := PInt 7 ]}] 0%nat
                {[ "num_encoders" := PInt 7 ]} eq_refl) as [Hmiss _].
    apply Hmiss. reflexivity.
  - destruct (EVFlowNet_init_needs_num_bins_only UNet_stub
                [{[ "num_bins" := PInt 5 ]}] 0%nat
                {[ "num_bins" := PInt 5 ]} eq_refl) as [_ Hnb].
    destruct (Hnb (PInt 5) eq_refl) as [Hok _].
    eexists _, _. split; [apply Hok; reflexivity|reflexivity].
Defined.



(** * Further properties of [EVFlowNet.forward] *)

Lemma numel_app (s1 s2 : list nat) :
  numel (s1 ++ s2) = (numel s1 * numel s2)%nat.
Proof.
  unfold numel. induction s1 as [|n s1 IH]; simpl; [lia|].
  rewrite IH. lia.
Qed.

Lemma slice_blocks_all {A} (n blk : nat) : ∀ d : list A,
  length d = (n * blk)%nat → slice_blocks n blk blk d = d.
Proof.
  induction n as [|n IH]; intros d Hd; simpl.
  - by destruct d.
  - rewrite IH; [by rewrite take_drop|]. rewrite length_drop. lia.
Qed.

Lemma shape_last_three (s : list nat) :
  (3 ≤ length s)%nat → ∃ lead C H W, s = lead ++ [C; H; W].
Proof.
  intros Hlen. rewrite <- (rev_involutive s) in *.
  rewrite length_rev in Hlen.
  destruct (rev s) as [|W [|H [|C lead]]]; simpl in Hlen; try lia.
  exists (rev lead), C, H, W. simpl. by rewrite <- !app_assoc.
Qed.

Lemma first_channel_general (t : tensor) (lead : list nat) (C H W : nat) :
  shape t = lead ++ [C; H; W] →
  first_channel t
  = Ok (Tensor (lead ++ [Nat.min 1 C; H; W])
          (slice_blocks (numel lead) (C * H * W) (Nat.min 1 C * H * W)
             (data t))).
Proof.
  intros Hs. unfold first_channel. rewrite Hs, rev_app_distr. simpl rev.
  simpl app. cbv iota beta. by rewrite rev_involutive.
Qed.

Lemma first_channel_low_rank (t : tensor) :
  (length (shape t) < 3)%nat → first_channel t = Raise IndexError.
Proof.
  intros Hlen. unfold first_channel.
  rewrite <- length_rev in Hlen.
  destruct (rev (shape t)) as [|W [|H [|C lead]]]; simpl in Hlen; try done.
  lia.
Qed.

(** X11: [EVFlowNet.forward] passes on an exception of the wrapped UNet,
    raises [IndexError] when the UNet returns a flow with fewer than
    three dimensions, and for every flow with three dimensions or more
    returns the mapping with exactly the keys flow and image, the image
    having as many dimensions as the flow. *)
Theorem EVFlowNet_forward_outcomes
    (U : fnet → tensor → result tensor) (unet : fnet) (x : tensor) :
  (∀ e, U unet x = Raise e → EVFlowNet_forward U unet x = Raise e) ∧
  (∀ flow, U unet x = Ok flow → (length (shape flow) < 3)%nat →
     EVFlowNet_forward U unet x = Raise IndexError) ∧
  (∀ flow, U unet x = Ok flow → (3 ≤ length (shape flow))%nat →
     ∃ img,
       EVFlowNet_forward U unet x
         = Ok (<["flow" := flow]> (<["image" := img]> ∅)) ∧
       dom (<["flow" := flow]> (<["image" := img]> (∅ : gmap string tensor)))
         = {[ "flow"; "image" ]} ∧
       length (shape img) = length (shape flow)).
Proof.
  unfold EVFlowNet_forward. split_and!.
  - by intros e ->.
  - intros flow -> Hlen. cbn [mbind result_bind].
    by rewrite first_channel_low_rank.
  - intros flow -> Hlen. cbn [mbind result_bind].
    destruct (shape_last_three _ Hlen) as (lead & C & H & W & Hs).
    rewrite (first_channel_general flow lead C H W Hs).
    cbn [mbind result_bind]. eexists. split; [reflexivity|]. split.
    + rewrite !dom_insert_L, dom_empty_L. set_solver.
    + simpl. rewrite Hs, !length_app. done.
Qed.

Lemma EVFlowNet_forward_outcomes_witness :
  EVFlowNet_forward (λ _ _, Raise KeyError) (FNet ∅) (zeros [1; 5; 2; 2]%nat)
    = Raise KeyError ∧
  EVFlowNet_forward (λ _ _, Ok (zeros [2; 2]%nat)) (FNet ∅)
    (zeros [1; 5; 2; 2]%nat) = Raise IndexError ∧
  ∃ img,
    EVFlowNet_forward (λ _ _, Ok (zeros [2; 2; 2]%nat)) (FNet ∅)
      (zeros [1; 5; 2; 2]%nat)
    = Ok (<["flow" := zeros [2; 2; 2]%nat]> (<["image" := img]> ∅)).
Proof.
  split; [|split].
  - apply (EVFlowNet_forward_outcomes (λ _ _, Raise KeyError)). reflexivity.
  - apply (EVFlowNet_forward_outcomes (λ _ _, Ok (zeros [2; 2]%nat)) (FNet ∅)
             (zeros [1; 5; 2; 2]%nat)) with (flow := zeros [2; 2]%nat);
      [reflexivity|simpl; lia].
  - destruct (EVFlowNet_forward_outcomes (λ _ _, Ok (zeros [2; 2; 2]%nat))
                (FNet ∅) (zeros [1; 5; 2; 2]%nat)) as (_ & _ & Hok).
    destruct (Hok (zeros [2; 2; 2]%nat) eq_refl) as (img & E & _);
      [simpl; lia|].
    exists img. exact E.
Defined.

(** X12: on a well-formed flow of any shape ... x C x H x W the slice
    [flow[..., 0:1, :, :]] keeps the leading dimensions and H and W and
    has min(1, C) channels; it and the image [0 * slice] are well formed.
    A flow without channels gives an empty image, not an error, and a
    flow with one channel is sliced to itself. *)
Theorem first_channel_any_rank
    (flow : tensor) (lead : list nat) (C H W : nat) :
  shape flow = lead ++ [C; H; W] →
  tensor_wf flow →
  ∃ slice,
    first_channel flow = Ok slice ∧
    shape slice = lead ++ [Nat.min 1 C; H; W] ∧
    tensor_wf slice ∧
    shape (zero_times slice) = shape slice ∧
    tensor_wf (zero_times slice) ∧
    (C = 0%nat → data slice = [] ∧ data (zero_times slice) = []) ∧
    (C = 1%nat → slice = flow).
Proof.
  intros Hs Hwf. rewrite (first_channel_general flow lead C H W Hs).
  eexists. split; [reflexivity|]. cbn [shape data zero_times].
  assert (length (data flow) = (numel lead * (C * H * W))%nat) as Hlen.
  { unfold tensor_wf in Hwf. rewrite Hwf, Hs, numel_app. simpl. lia. }
  assert (Nat.min 1 C * H * W ≤ C * H * W)%nat as Hk.
  { destruct C as [|C]; simpl; nia. }
  assert (length (slice_blocks (numel lead) (C * H * W) (Nat.min 1 C * H * W)
                    (data flow))
          = numel (lead ++ [Nat.min 1 C; H; W])) as Hslice.
  { rewrite slice_blocks_length; [|lia|done]. rewrite numel_app. simpl. lia. }
  split_and!; [done|exact Hslice|done| | |].
  - unfold tensor_wf, zero_times. cbn [shape data]. by rewrite length_map.
  - intros ->. simpl in Hslice. rewrite numel_app in Hslice.
    simpl in Hslice. rewrite Nat.mul_0_r in Hslice.
    apply nil_length_inv in Hslice. simpl. by rewrite Hslice.
  - intros ->. simpl Nat.min. rewrite !Nat.mul_1_l in *.
    rewrite slice_blocks_all by done. destruct flow as [s d].
    simpl in *. by subst.
Qed.

Lemma first_channel_any_rank_witness :
  ∃ slice,
    first_channel (zeros [2; 3; 0; 4; 5]%nat) = Ok slice ∧
    shape slice = [2; 3; 0; 4; 5]%nat ∧ data slice = [].
Proof.
  destruct (first_channel_any_rank (zeros [2; 3; 0; 4; 5]%nat) [2; 3]%nat
              0%nat 4%nat 5%nat eq_refl (zeros_wf _))
    as (slice & E & Hs & _ & _ & _ & Hz & _).
  exists slice. split; [exact E|]. split; [exact Hs|].
  by destruct (Hz eq_refl).
Defined.
